(** * vue-numeric: the formatting, clamping and synchronisation engine

    A shallow embedding of the component defined in
    [src/vue-numeric.vue] and of its second copy [part_000], which differ
    in their blur/commit path.  JavaScript values are embedded as a small
    tagged union; numbers are exact rationals with a [NaN] (binary64
    round-off, infinite number values and negative zero are outside the
    model). *)

From Stdlib Require Import ZArith NArith QArith Qround Qabs.
From Stdlib Require Import String Ascii List Bool Lia Lqa.
Import ListNotations.

Local Open Scope Z_scope.

(* ================================================================= *)
(** * JavaScript values and the coercions the component relies on *)

Module JS.

(** A JavaScript number: a finite value or [NaN]. *)
Inductive number : Type :=
| NaN
| Num (q : Q).

(** The values that reach the component: [undefined], [null], numbers and
    strings. *)
Inductive val : Type :=
| VUndefined
| VNull
| VNum (n : number)
| VStr (s : string).

Definition chars (s : string) : list ascii := list_ascii_of_string s.
Definition text (l : list ascii) : string := string_of_list_ascii l.

Definition is_digit (c : ascii) : bool :=
  (48 <=? N_of_ascii c)%N && (N_of_ascii c <=? 57)%N.

Definition digit_val (c : ascii) : N := (N_of_ascii c - 48)%N.

Definition digit_char (d : N) : ascii := ascii_of_N (48 + d).

(** White space as [StrWhiteSpaceChar] restricted to ASCII. *)
Definition is_space (c : ascii) : bool :=
  let n := N_of_ascii c in
  (n =? 32)%N || ((9 <=? n)%N && (n <=? 13)%N).

(** ** Numbers *)

Fixpoint pow10 (k : nat) : positive :=
  match k with
  | O => 1%positive
  | S k' => (10 * pow10 k')%positive
  end.

(** Value of a run of decimal digits, most significant first. *)
Definition digits_value (ds : list ascii) : N :=
  fold_left (fun acc c => (10 * acc + digit_val c)%N) ds 0%N.

Fixpoint span_digits (s : list ascii) : list ascii * list ascii :=
  match s with
  | c :: s' =>
      if is_digit c
      then let (ds, r) := span_digits s' in (c :: ds, r)
      else ([], s)
  | [] => ([], [])
  end.

(** The rational written [ip.fp]. *)
Definition decimal_of (ip fp : list ascii) : Q :=
  Z.of_N (digits_value (ip ++ fp)) # pow10 (length fp).

(** [ExponentPart]: [e] or [E], an optional sign, at least one digit. *)
Definition parse_exponent (s : list ascii) : option (Z * list ascii) :=
  match s with
  | c :: r =>
      if Ascii.eqb c "e" || Ascii.eqb c "E" then
        let '(neg, r1) :=
          match r with
          | sg :: r' =>
              if Ascii.eqb sg "-" then (true, r')
              else if Ascii.eqb sg "+" then (false, r')
              else (false, r)
          | [] => (false, r)
          end in
        let (ds, r2) := span_digits r1 in
        match ds with
        | [] => None
        | _ :: _ =>
            let e := Z.of_N (digits_value ds) in
            Some (if neg then - e else e, r2)
        end
      else None
  | [] => None
  end.

Definition scale10 (q : Q) (e : Z) : Q :=
  match e with
  | Z0 => q
  | Zpos n => (q * inject_Z (Z.pow_pos 10 n))%Q
  | Zneg n => (q / inject_Z (Z.pow_pos 10 n))%Q
  end.

(** The longest prefix of [s] that is an unsigned [StrDecimalLiteral],
    with its value and what follows it. *)
Definition parse_decimal (s : list ascii) : option (Q * list ascii) :=
  let (ip, r1) := span_digits s in
  let mantissa :=
    match r1 with
    | c :: r2 =>
        if Ascii.eqb c "." then
          let (fp, r3) := span_digits r2 in
          match ip, fp with
          | [], [] => None
          | _, _ => Some (decimal_of ip fp, r3)
          end
        else match ip with [] => None | _ :: _ => Some (decimal_of ip [], r1) end
    | [] => match ip with [] => None | _ :: _ => Some (decimal_of ip [], r1) end
    end in
  match mantissa with
  | Some (q, r) =>
      match parse_exponent r with
      | Some (e, r') => Some (scale10 q e, r')
      | None => Some (q, r)
      end
  | None => None
  end.

Fixpoint skip_spaces (s : list ascii) : list ascii :=
  match s with
  | c :: s' => if is_space c then skip_spaces s' else s
  | [] => []
  end.

Definition parse_signed (s : list ascii) : option (Q * list ascii) :=
  match s with
  | c :: r =>
      if Ascii.eqb c "-" then
        match parse_decimal r with
        | Some (q, r') => Some (Qopp q, r')
        | None => None
        end
      else if Ascii.eqb c "+" then parse_decimal r
      else parse_decimal s
  | [] => None
  end.

(** [parseFloat]: leading white space is skipped, the longest numeric
    prefix is read, anything else gives [NaN].  (The literal [Infinity]
    is not read: [unformat], the only caller, hands over digits, brackets
    and characters of the decimal separator.) *)
Definition parseFloat (s : list ascii) : number :=
  match parse_signed (skip_spaces s) with
  | Some (q, _) => Num q
  | None => NaN
  end.

(** [prefix_rest pat s] is what follows [pat] when [s] starts with it. *)
Fixpoint prefix_rest (pat s : list ascii) : option (list ascii) :=
  match pat with
  | [] => Some s
  | p :: pat' =>
      match s with
      | c :: s' => if Ascii.eqb p c then prefix_rest pat' s' else None
      | [] => None
      end
  end.

(** The value of a digit in a radix up to 16, in either case. *)
Definition radix_digit (radix : N) (c : ascii) : option N :=
  let n := N_of_ascii c in
  let d :=
    if (48 <=? n)%N && (n <=? 57)%N then Some (n - 48)%N
    else if (97 <=? n)%N && (n <=? 102)%N then Some (n - 87)%N
    else if (65 <=? n)%N && (n <=? 70)%N then Some (n - 55)%N
    else None in
  match d with
  | Some v => if (v <? radix)%N then Some v else None
  | None => None
  end.

(** The value of the longest run of digits of the radix, and what
    follows it. *)
Fixpoint radix_value (radix acc : N) (s : list ascii) : N * list ascii :=
  match s with
  | c :: s' =>
      match radix_digit radix c with
      | Some v => radix_value radix (radix * acc + v)%N s'
      | None => (acc, s)
      end
  | [] => (acc, [])
  end.

(** [NonDecimalIntegerLiteral]: [0x], [0o] or [0b], in either case,
    and at least one digit of the radix; it takes no sign. *)
Definition parse_radix (s : list ascii) : option (Q * list ascii) :=
  match s with
  | z :: k :: ((d :: _) as r) =>
      let radix :=
        if Ascii.eqb k "x" || Ascii.eqb k "X" then 16%N
        else if Ascii.eqb k "o" || Ascii.eqb k "O" then 8%N
        else if Ascii.eqb k "b" || Ascii.eqb k "B" then 2%N
        else 0%N in
      if Ascii.eqb z "0" then
        match radix_digit radix d with
        | Some _ =>
            let (n, r') := radix_value radix 0 r in
            Some (inject_Z (Z.of_N n), r')
        | None => None
        end
      else None
  | _ => None
  end.

(** [Infinity] with an optional sign: whether it is negative, and what
    follows it. *)
Definition parse_infinity (s : list ascii) : option (bool * list ascii) :=
  let '(neg, u) :=
    match s with
    | c :: r =>
        if Ascii.eqb c "-" then (true, r)
        else if Ascii.eqb c "+" then (false, r)
        else (false, s)
    | [] => (false, s)
    end in
  match prefix_rest (chars "Infinity") u with
  | Some r => Some (neg, r)
  | None => None
  end.

(** What [ToNumber] gives: a number of the model, or one of the
    infinities, which only the text [Infinity] denotes here. *)
Inductive extended : Type :=
| Finite (n : number)
| Infinity (negative : bool).

(** [ToNumber] on a string: white space is trimmed, the empty string is
    0, and the whole remainder has to be one numeric literal: a
    hexadecimal, octal or binary integer, [Infinity], or a decimal
    literal. *)
Definition string_to_number (s : string) : extended :=
  let whole (r : list ascii) (v : extended) :=
    match skip_spaces r with
    | [] => v
    | _ :: _ => Finite NaN
    end in
  match skip_spaces (chars s) with
  | [] => Finite (Num 0%Q)
  | (_ :: _) as t =>
      match parse_radix t with
      | Some (q, r) => whole r (Finite (Num q))
      | None =>
          match parse_infinity t with
          | Some (neg, r) => whole r (Infinity neg)
          | None =>
              match parse_signed t with
              | Some (q, r) => whole r (Finite (Num q))
              | None => Finite NaN
              end
          end
      end
  end.

(** [ToNumber]. *)
Definition to_number (v : val) : extended :=
  match v with
  | VUndefined => Finite NaN
  | VNull => Finite (Num 0%Q)
  | VNum n => Finite n
  | VStr s => string_to_number s
  end.

(** The relational operators on numbers: any comparison with [NaN] is
    false. *)
Definition num_ge (a b : number) : bool :=
  match a, b with
  | Num x, Num y => Qle_bool y x
  | _, _ => false
  end.

Definition num_le (a b : number) : bool :=
  match a, b with
  | Num x, Num y => Qle_bool x y
  | _, _ => false
  end.

Definition num_lt (a b : number) : bool :=
  match a, b with
  | Num x, Num y => negb (Qle_bool y x)
  | _, _ => false
  end.

Definition num_gt (a b : number) : bool := num_lt b a.

(** The same where the left operand may be an infinity. *)
Definition ext_ge (a : extended) (b : number) : bool :=
  match a with
  | Finite n => num_ge n b
  | Infinity negative => match b with NaN => false | Num _ => negb negative end
  end.

Definition ext_le (a : extended) (b : number) : bool :=
  match a with
  | Finite n => num_le n b
  | Infinity negative => match b with NaN => false | Num _ => negative end
  end.

Definition ext_lt (a : extended) (b : number) : bool :=
  match a with
  | Finite n => num_lt n b
  | Infinity negative => match b with NaN => false | Num _ => negative end
  end.

(** [a >= b], [a <= b] and [a < b] where the right operand is a number:
    the left one goes through [ToNumber]. *)
Definition js_ge (a : val) (b : number) : bool := ext_ge (to_number a) b.
Definition js_le (a : val) (b : number) : bool := ext_le (to_number a) b.
Definition js_lt (a : val) (b : number) : bool := ext_lt (to_number a) b.

(** [ToBoolean] on a number and on a string. *)
Definition truthy_number (n : number) : bool :=
  match n with
  | NaN => false
  | Num q => negb (Qeq_bool q 0%Q)
  end.

Definition truthy_string (s : string) : bool :=
  match s with
  | EmptyString => false
  | String _ _ => true
  end.

(** [a === b]. *)
Definition strict_eq (a b : val) : bool :=
  match a, b with
  | VUndefined, VUndefined => true
  | VNull, VNull => true
  | VNum (Num x), VNum (Num y) => Qeq_bool x y
  | VStr s, VStr t => String.eqb s t
  | _, _ => false
  end.

(** ** Strings *)

(** The capture that the reference [$i] names, if there is one. *)
Definition capture (caps : list (list ascii)) (i : N) : option (list ascii) :=
  if (i =? 0)%N then None else nth_error caps (N.to_nat (i - 1)).

(** [GetSubstitution]: the replacement text [t] of
    [String.prototype.replace] with its patterns expanded: [$$] is a
    dollar sign, [$&] the matched text, [$`] and [$'] what stands before
    and after it, [$n] and [$nn] the captures of the pattern; a
    two-digit reference beyond the captures is read as a one-digit one,
    and a [$] that starts no pattern stands for itself. *)
Fixpoint substitution (matched before after : list ascii)
    (caps : list (list ascii)) (t : list ascii) {struct t} : list ascii :=
  match t with
  | c :: r =>
      if Ascii.eqb c "$" then
        match r with
        | d :: r1 =>
            if Ascii.eqb d "$" then
              "$"%char :: substitution matched before after caps r1
            else if Ascii.eqb d "&" then
              matched ++ substitution matched before after caps r1
            else if Ascii.eqb d "`" then
              before ++ substitution matched before after caps r1
            else if Ascii.eqb d "'" then
              after ++ substitution matched before after caps r1
            else if is_digit d then
              let one :=
                match capture caps (digit_val d) with
                | Some cp => cp ++ substitution matched before after caps r1
                | None => c :: substitution matched before after caps r
                end in
              match r1 with
              | d2 :: r2 =>
                  if is_digit d2 then
                    match capture caps (10 * digit_val d + digit_val d2) with
                    | Some cp => cp ++ substitution matched before after caps r2
                    | None => one
                    end
                  else one
              | [] => one
              end
            else c :: substitution matched before after caps r
        | [] => [c]
        end
      else c :: substitution matched before after caps r
  | [] => []
  end.

(** The first occurrence of [pat] in [s]: what stands before and after
    it. *)
Fixpoint find_first (pat s : list ascii) : option (list ascii * list ascii) :=
  match prefix_rest pat s with
  | Some rest => Some ([], rest)
  | None =>
      match s with
      | c :: s' =>
          match find_first pat s' with
          | Some (before, after) => Some (c :: before, after)
          | None => None
          end
      | [] => None
      end
  end.

(** [s.replace(pat, rep)] for a string pattern: the first occurrence
    only, and no captures. *)
Definition replace_first (pat rep s : list ascii) : list ascii :=
  match find_first pat s with
  | Some (before, after) =>
      before ++ substitution pat before after [] rep ++ after
  | None => s
  end.

Definition lower_char (c : ascii) : ascii :=
  let n := N_of_ascii c in
  if (65 <=? n)%N && (n <=? 90)%N then ascii_of_N (n + 32) else c.

(** [s.toLowerCase()] on ASCII. *)
Definition toLowerCase (s : string) : string :=
  text (map lower_char (chars s)).

End JS.

(* ================================================================= *)
(** * The accounting-js primitives *)

(** Modelled from the spec: the money-formatting primitive
    ([accounting-js]), which the component imports and which is not
    among its sources: [formatMoney], [unformat] and [toFixed], with the
    helpers they are built from, as the library documents and implements
    them.  Amounts are nudged by [1e-8] and rounded half up to the
    precision; bracketed amounts are read as negatives; a number is
    unformatted to itself.  (The arithmetic is exact; the exponent
    notation that the native [toFixed] prints from [exponent_threshold]
    on and its [RangeError] beyond 100 digits are outside the model.) *)
Module Accounting.
Import JS.

(** The [opts] object handed to [formatMoney]. *)
Record options : Type := {
  symbol : string;
  format : string;
  precision : nat;
  decimal : string;
  thousand : string
}.

(** What [toFixed] adds to a value before it rounds: [1e-8]. *)
Definition nudge : Q := 1 # 100000000.

(** The magnitude from which the native [toFixed] prints exponent
    notation instead of digits: [1e21]. *)
Definition exponent_threshold : Q := 1000000000000000000000 # 1.

(** [Math.round((value + 1e-8) * 10^precision)]: rounding half up. *)
Definition round_scaled (q : Q) (precision : nat) : Z :=
  Qfloor ((q + nudge) * inject_Z (Zpos (pow10 precision)) + (1 # 2)).

Fixpoint digits_fuel (fuel : nat) (n : N) (acc : list ascii) : list ascii :=
  match fuel with
  | O => acc
  | S f =>
      let acc' := digit_char (n mod 10) :: acc in
      if (n / 10 =? 0)%N then acc' else digits_fuel f (n / 10) acc'
  end.

(** The decimal digits of [n], without leading zeros. *)
Definition digits_of_N (n : N) : list ascii :=
  digits_fuel (S (N.to_nat (N.log2 n))) n [].

(** The last [width] decimal digits of [n], zero padded. *)
Fixpoint fixed_digits (width : nat) (n : N) : list ascii :=
  match width with
  | O => []
  | S w => fixed_digits w (n / 10) ++ [digit_char (n mod 10)]
  end.

Definition Npow10 (k : nat) : N := Npos (pow10 k).

(** Modelled from the spec: [toFixed(value, precision) -> string] of the
    money-formatting primitive, which is imported by the component and
    not part of its sources: the fixed-decimal representation of the
    nudged and rounded [value], with exactly [precision] fractional
    digits. *)
Definition toFixed (value : number) (precision : nat) : string :=
  match value with
  | NaN => "NaN"
  | Num q =>
      let r := round_scaled q precision in
      let m := Z.abs_N r in
      text ((if r <? 0 then ["-"%char] else []) ++
            digits_of_N (m / Npow10 precision) ++
            match precision with
            | O => []
            | S _ => "."%char :: fixed_digits precision (m mod Npow10 precision)
            end)
  end.

(** [ds.replace(/(\d{3})(?=\d)/g, '$1' + sep)] on a run of digits:
    every group of three digits that another digit follows is replaced
    by the expansion of ['$1' + sep], in which the group is the match
    and the one capture; [before] is the part of the run already
    passed. *)
Fixpoint group3 (sep before ds : list ascii) : list ascii :=
  match ds with
  | a :: b :: c :: ((_ :: _) as tl) =>
      substitution [a; b; c] before tl [[a; b; c]]
        ("$"%char :: "1"%char :: sep)
      ++ group3 sep (before ++ [a; b; c]) tl
  | _ => ds
  end.

Definition num_abs (n : number) : number :=
  match n with
  | NaN => NaN
  | Num q => Num (Qabs q)
  end.

(** Modelled from the spec: the number part of [formatMoney]: exactly
    [precision] fractional digits after the [decimal] separator, the
    integer digits grouped by three with the [thousand] separator. *)
Definition formatNumber (n : number) (o : options) : list ascii :=
  match n with
  | NaN =>
      chars "NaN" ++
      match precision o with
      | O => []
      | S _ => chars (decimal o) ++ chars "undefined"
      end
  | Num q =>
      let r := Z.to_N (round_scaled (Qabs q) (precision o)) in
      let base := digits_of_N (r / Npow10 (precision o)) in
      let md := if (3 <? length base)%nat then (length base mod 3)%nat else O in
      (if negb (Qle_bool 0 q) then ["-"%char] else []) ++
      match md with
      | O => []
      | S _ => firstn md base ++ chars (thousand o)
      end ++
      group3 (chars (thousand o)) [] (skipn md base) ++
      match precision o with
      | O => []
      | S _ => chars (decimal o) ++
               fixed_digits (precision o) (r mod Npow10 (precision o))
      end
  end.

(** The format used for a negative amount: the sign goes in front of
    the value. *)
Definition neg_format (f : list ascii) : list ascii :=
  replace_first (chars "%v") (chars "-%v") (replace_first (chars "-") [] f).

(** Modelled from the spec:
    [formatMoney(value, {symbol, format, precision, decimal, thousand}) -> string]
    of the money-formatting primitive: the format is chosen by the sign
    of the value, [%s] is replaced by the symbol and [%v] by the
    formatted absolute value. *)
Definition formatMoney (n : number) (o : options) : string :=
  let f := chars (format o) in
  let useFormat :=
    if num_gt n (Num 0%Q) then f
    else if num_lt n (Num 0%Q) then neg_format f
    else f in
  text (replace_first (chars "%v") (formatNumber (num_abs n) o)
          (replace_first (chars "%s") (chars (symbol o)) useFormat)).

(** What the cruft filter of [unformat] keeps: digits, the minus sign,
    parentheses and the characters of the decimal separator.  (The
    separator is read as a list of literal class members: a backslash, a
    closing square bracket, or a minus sign next to another character,
    which the regular expression reads as syntax, are outside the
    model.) *)
Definition keep_char (decimal : list ascii) (c : ascii) : bool :=
  is_digit c || Ascii.eqb c "-" || Ascii.eqb c "(" || Ascii.eqb c ")"
  || existsb (Ascii.eqb c) decimal.

(** What stands between an opening bracket and the first closing one,
    and what follows the latter. *)
Fixpoint span_close (s : list ascii) : option (list ascii * list ascii) :=
  match s with
  | c :: s' =>
      if Ascii.eqb c ")" then Some ([], s')
      else match span_close s' with
           | Some (body, r) => Some (c :: body, r)
           | None => None
           end
  | [] => None
  end.

Fixpoint skip_dashes (s : list ascii) : list ascii :=
  match s with
  | c :: s' => if Ascii.eqb c "-" then skip_dashes s' else s
  | [] => []
  end.

(** A bracketed amount: dashes, digits, at most one other character,
    and at least one final digit. *)
Definition bracket_body (body : list ascii) : bool :=
  let (d1, r) := span_digits (skip_dashes body) in
  match r with
  | [] => negb (Nat.eqb (length d1) 0)
  | _ :: d2 => negb (Nat.eqb (length d2) 0) && forallb is_digit d2
  end.

(** Every bracketed amount [(n)] becomes [-n]. *)
Fixpoint bracket_negatives (fuel : nat) (s : list ascii) : list ascii :=
  match fuel with
  | O => s
  | S f =>
      match s with
      | c :: s' =>
          if Ascii.eqb c "(" then
            match span_close s' with
            | Some (body, r) =>
                if bracket_body body
                then "-"%char :: body ++ bracket_negatives f r
                else c :: bracket_negatives f s'
            | None => c :: bracket_negatives f s'
            end
          else c :: bracket_negatives f s'
      | [] => []
      end
  end.

Fixpoint after_last_close (s : list ascii) : option (list ascii) :=
  match s with
  | c :: s' =>
      match after_last_close s' with
      | Some r => Some r
      | None => if Ascii.eqb c ")" then Some s' else None
      end
  | [] => None
  end.

(** The text from the first opening bracket to the last closing one is
    dropped. *)
Fixpoint drop_brackets (s : list ascii) : list ascii :=
  match s with
  | c :: s' =>
      if Ascii.eqb c "(" then
        match after_last_close s' with
        | Some r => r
        | None => s
        end
      else c :: drop_brackets s'
  | [] => []
  end.

Definition is_dash (c : ascii) : bool := Ascii.eqb c "-".

Definition count_dashes (s : list ascii) : nat :=
  length (filter is_dash s).

(** The text that [unformat] hands to [parseFloat], and the sign. *)
Definition cleaned (s decimal : list ascii) : list ascii :=
  let stripped := filter (keep_char decimal) s in
  let pointed := replace_first decimal ["."%char] stripped in
  drop_brackets (bracket_negatives (length pointed) pointed).

Definition parse_text (s : string) (decimal : string) : number :=
  let u := cleaned (chars s) (chars decimal) in
  let negative := Nat.odd (count_dashes u) in
  match parseFloat (filter (fun c => negb (is_dash c)) u) with
  | Num q => Num (if negative then Qopp q else q)
  | NaN => Num 0%Q
  end.

(** Modelled from the spec: [unformat(value, decimalSeparator) -> number]
    of the money-formatting primitive: a number, [NaN] included, is
    returned as it is; otherwise everything but digits, minus signs,
    brackets and the decimal separator is stripped from the text of the
    value, the decimal separator is read as the decimal point, and what
    does not parse as a number yields 0. *)
Definition unformat (v : val) (decimal : string) : number :=
  match v with
  | VNum n => n
  | VStr s => parse_text s decimal
  | VNull => parse_text "null" decimal
  | VUndefined => parse_text "undefined" decimal
  end.

End Accounting.

(* ================================================================= *)
(** * The component: props, state and emitted events *)

Import JS.

(** The props the engine reads (the view-only ones, [placeholder],
    [readOnly], [readOnlyClass] and [disabled], are left out).
    [precision] is taken as a natural number. *)
Record props : Type := {
  currency : string;
  max : number;
  min : number;
  minus : bool;
  emptyValue : val;
  precision : nat;
  separator : string;
  thousandSeparator : option string;
  decimalSeparator : option string;
  outputType : string;
  value : val;
  currencySymbolPosition : string
}.

Definition MAX_SAFE_INTEGER : number := Num (9007199254740991 # 1).
Definition MIN_SAFE_INTEGER : number := Num (-9007199254740991 # 1).

(** The declared defaults, around a given [value]. *)
Definition default_props (v : val) : props := {|
  currency := "";
  max := MAX_SAFE_INTEGER;
  min := MIN_SAFE_INTEGER;
  minus := false;
  emptyValue := VStr "";
  precision := 0;
  separator := ",";
  thousandSeparator := None;
  decimalSeparator := None;
  outputType := "Number";
  value := v;
  currencySymbolPosition := "prefix"
|}.

(** [data]: the displayed text, bound to the input by [v-model]. *)
Record data : Type := { amount : val }.

(** The DOM event of a blur, as far as the handler reads it. *)
Record dom_event : Type := { target_value : string }.

(** What [$emit] sends to the owner. *)
Inductive event : Type :=
| Blur (evt : dom_event)
| Input (v : val).

(** Handlers run on the component state and append to the emitted
    events; [None] is a thrown [TypeError]. *)
Definition M (A : Type) : Type := data -> option (A * data * list event).

Definition ret {A : Type} (a : A) : M A := fun d => Some (a, d, []).

Definition bind {A B : Type} (c : M A) (k : A -> M B) : M B :=
  fun d =>
    match c d with
    | Some (a, d1, es1) =>
        match k a d1 with
        | Some (b, d2, es2) => Some (b, d2, es1 ++ es2)
        | None => None
        end
    | None => None
    end.

Definition get_amount : M val := fun d => Some (amount d, d, []).
Definition set_amount (v : val) : M unit := fun _ => Some (tt, {| amount := v |}, []).
Definition emit (e : event) : M unit := fun d => Some (tt, d, [e]).
Definition throw {A : Type} : M A := fun _ => None.

Declare Scope comp_scope.
Delimit Scope comp_scope with comp.
Notation "x <- c ;; k" := (bind c (fun x => k))
  (at level 61, c at next level, right associativity) : comp_scope.
Notation "c ;; k" := (bind c (fun _ => k))
  (at level 61, right associativity) : comp_scope.

(** The state and the events a handler leaves behind. *)
Definition run (c : M unit) (d : data) : option (data * list event) :=
  match c d with
  | Some (_, d', es) => Some (d', es)
  | None => None
  end.

(** ** Computed properties (the same in both files) *)

Definition decimalSeparatorSymbol (p : props) : string :=
  match decimalSeparator p with
  | Some s => s
  | None => if String.eqb (separator p) "," then "." else ","
  end.

Definition thousandSeparatorSymbol (p : props) : string :=
  match thousandSeparator p with
  | Some s => s
  | None =>
      if String.eqb (separator p) "." then "."
      else if String.eqb (separator p) "space" then " "
      else ","
  end.

Definition symbolPosition (p : props) : string :=
  if negb (truthy_string (currency p)) then "%v"
  else if String.eqb (currencySymbolPosition p) "suffix" then "%v %s" else "%s %v".

(** The options both files pass to [accounting.formatMoney]. *)
Definition money_options (p : props) : Accounting.options := {|
  Accounting.symbol := currency p;
  Accounting.format := symbolPosition p;
  Accounting.precision := precision p;
  Accounting.decimal := decimalSeparatorSymbol p;
  Accounting.thousand := thousandSeparatorSymbol p
|}.

(** [unformat] (the same in both files). *)
Definition unformat (p : props) (v : val) : number :=
  let toUnformat :=
    match v with
    | VStr EmptyString => emptyValue p
    | _ => v
    end in
  Accounting.unformat toUnformat (decimalSeparatorSymbol p).

(** The three overwriting checks that [process] (vue-numeric.vue) and
    [format] (part_000) run on [processedValue]. *)
Definition clamp (p : props) (v : val) (processedValue : number) : number :=
  let processedValue := if js_ge v (max p) then max p else processedValue in
  let processedValue := if js_le v (min p) then min p else processedValue in
  if negb (minus p) && js_lt v (Num 0%Q)
  then (if num_ge (min p) (Num 0%Q) then min p else Num 0%Q)
  else processedValue.

(** [output] of [update] (the same in both files): the fixed-decimal
    text or the number itself. *)
Definition output (p : props) (emitValue : number) : val :=
  let fixedValue := Accounting.toFixed emitValue (precision p) in
  if String.eqb (toLowerCase (outputType p)) "string"
  then VStr fixedValue
  else VNum emitValue.

(* ================================================================= *)
(** * src/vue-numeric.vue *)

Module VueNumeric.

Local Open Scope comp_scope.

Definition format (p : props) (n : number) : string :=
  Accounting.formatMoney n (money_options p).

Definition process (p : props) (v : val) : string :=
  let processedValue := unformat p v in
  format p (clamp p v processedValue).

Definition update (p : props) (v : val) : M unit :=
  let emitValue := unformat p v in
  if negb (truthy_number emitValue) then
    emit (Input (VStr "")) ;;
    set_amount (VStr "")
  else
    emit (Input (output p emitValue)).

Definition onBlurHandler (p : props) (evt : dom_event) : M unit :=
  emit (Blur evt) ;;
  a <- get_amount ;;
  if negb (Nat.eqb (String.length (target_value evt)) 0)
     && negb (truthy_number (unformat p a))
  then
    set_amount (VNum (Num 0%Q)) ;;
    emit (Input (VNum (Num 0%Q)))
  else
    set_amount (VStr (process p a)) ;;
    a' <- get_amount ;;
    update p a'.

(** [watch.value]: [p] holds the props after the change. *)
Definition watch_value (p : props) (newValue : val) : M unit :=
  a <- get_amount ;;
  if negb (strict_eq newValue a)
  then set_amount (VStr (process p newValue))
  else ret tt.

Definition watch_separator (p : props) : M unit :=
  set_amount (VStr (process p (value p))).

Definition watch_currency (p : props) : M unit :=
  set_amount (VStr (process p (value p))).

Definition watch_precision (p : props) : M unit :=
  set_amount (VStr (process p (value p))).

(** [mounted] (the deferral to the next tick is not modelled). *)
Definition mounted (p : props) : M unit :=
  set_amount (VStr (process p (value p))).

End VueNumeric.

(* ================================================================= *)
(** * part_000 *)

Module Part000.

Local Open Scope comp_scope.

Definition format (p : props) (v : val) : val :=
  match v with
  | VStr EmptyString => v
  | VNull => v
  | _ =>
      let processedValue := unformat p v in
      VStr (Accounting.formatMoney (clamp p v processedValue) (money_options p))
  end.

(** [this.amount.length], converted to a boolean: reading a property
    of [null] or [undefined] throws, a number has no [length]. *)
Definition amount_length (a : val) : M bool :=
  match a with
  | VStr s => ret (negb (Nat.eqb (String.length s) 0))
  | VNum _ => ret false
  | VNull => throw
  | VUndefined => throw
  end.

Definition update (p : props) : M unit :=
  a <- get_amount ;;
  let emitValue := unformat p a in
  if negb (truthy_number emitValue) then
    nonempty <- amount_length a ;;
    if nonempty then
      set_amount (format p (VNum (Num 0%Q))) ;;
      emit (Input (VNum (Num 0%Q)))
    else
      set_amount (VStr "") ;;
      emit (Input (VStr ""))
  else
    set_amount (format p a) ;;
    emit (Input (output p emitValue)).

Definition onBlurHandler (p : props) (evt : dom_event) : M unit :=
  emit (Blur evt) ;;
  update p.

Definition watch_value (p : props) (newValue : val) : M unit :=
  a <- get_amount ;;
  if negb (strict_eq newValue a)
  then set_amount (format p newValue)
  else ret tt.

Definition watch_separator (p : props) : M unit :=
  set_amount (format p (value p)).

Definition watch_currency (p : props) : M unit :=
  set_amount (format p (value p)).

Definition watch_precision (p : props) : M unit :=
  set_amount (format p (value p)).

Definition mounted (p : props) : M unit :=
  set_amount (format p (value p)).

End Part000.


(* ================================================================= *)
(** * Configurations used in the examples, and conditions on them *)

Local Open Scope string_scope.

(** The default props with the given separator shorthand and
    overrides. *)
Definition with_separators (sep : string) (dec thou : option string) : props := {|
  currency := "";
  max := MAX_SAFE_INTEGER;
  min := MIN_SAFE_INTEGER;
  minus := false;
  emptyValue := VStr "";
  precision := 0;
  separator := sep;
  thousandSeparator := thou;
  decimalSeparator := dec;
  outputType := "Number";
  value := VNum (Num 0%Q);
  currencySymbolPosition := "prefix"
|}.

(** The default props with the given bounds and sign policy. *)
Definition with_bounds (lo hi : Q) (minusAllowed : bool) : props := {|
  currency := "";
  max := Num hi;
  min := Num lo;
  minus := minusAllowed;
  emptyValue := VStr "";
  precision := 0;
  separator := ",";
  thousandSeparator := None;
  decimalSeparator := None;
  outputType := "Number";
  value := VNum (Num 0%Q);
  currencySymbolPosition := "prefix"
|}.

(** The default props with the given [emptyValue]. *)
Definition with_emptyValue (e : val) : props := {|
  currency := "";
  max := MAX_SAFE_INTEGER;
  min := MIN_SAFE_INTEGER;
  minus := false;
  emptyValue := e;
  precision := 0;
  separator := ",";
  thousandSeparator := None;
  decimalSeparator := None;
  outputType := "Number";
  value := VNum (Num 0%Q);
  currencySymbolPosition := "prefix"
|}.

(** The default props with a currency symbol, a precision and bounds. *)
Definition with_money (sym : string) (prec : nat) (lo hi : Q) : props := {|
  currency := sym;
  max := Num hi;
  min := Num lo;
  minus := false;
  emptyValue := VStr "";
  precision := prec;
  separator := ",";
  thousandSeparator := None;
  decimalSeparator := None;
  outputType := "Number";
  value := VNum (Num 0%Q);
  currencySymbolPosition := "prefix"
|}.

(** The default props with bounds, a precision and an output type. *)
Definition with_output (lo hi : Q) (prec : nat) (out : string) : props := {|
  currency := "";
  max := Num hi;
  min := Num lo;
  minus := false;
  emptyValue := VStr "";
  precision := prec;
  separator := ",";
  thousandSeparator := None;
  decimalSeparator := None;
  outputType := out;
  value := VNum (Num 0%Q);
  currencySymbolPosition := "prefix"
|}.

(** The default props with a sign policy and a precision. *)
Definition with_minus (minusAllowed : bool) (prec : nat) : props := {|
  currency := "";
  max := MAX_SAFE_INTEGER;
  min := MIN_SAFE_INTEGER;
  minus := minusAllowed;
  emptyValue := VStr "";
  precision := prec;
  separator := ",";
  thousandSeparator := None;
  decimalSeparator := None;
  outputType := "Number";
  value := VNum (Num 0%Q);
  currencySymbolPosition := "prefix"
|}.

(** The default props with a currency symbol, a precision and
    separator overrides, any sign allowed. *)
Definition configured (sym : string) (prec : nat) (dec thou : option string)
    : props := {|
  currency := sym;
  max := MAX_SAFE_INTEGER;
  min := MIN_SAFE_INTEGER;
  minus := true;
  emptyValue := VStr "";
  precision := prec;
  separator := ",";
  thousandSeparator := thou;
  decimalSeparator := dec;
  outputType := "Number";
  value := VNum (Num 0%Q);
  currencySymbolPosition := "prefix"
|}.

(** The pipeline of [process]: unformat, clamp, format. *)
Definition pipeline (p : props) (v : val) : string :=
  Accounting.formatMoney (clamp p v (unformat p v)) (money_options p).

(** No character of [s] is a digit, a minus sign, a bracket or a
    character of the decimal separator. *)
Definition inert_text (p : props) (s : string) : bool :=
  forallb (fun x => negb (Accounting.keep_char (chars (decimalSeparatorSymbol p)) x))
    (chars s).

(** The characters of a text can stand in a character class as they
    are: none is a backslash or a closing square bracket, and a minus
    sign is at most the last one. *)
Fixpoint class_members (l : list ascii) : bool :=
  match l with
  | c :: r =>
      negb (Ascii.eqb c "092" || Ascii.eqb c "]")
      && negb (Ascii.eqb c "-" && match r with [] => false | _ :: _ => true end)
      && class_members r
  | [] => true
  end.

(** The decimal separator is not empty, does not start with a digit,
    and holds no space, no minus sign, and neither of the characters
    that escape or end a character class, the backslash and the closing
    square bracket. *)
Definition plain_decimal (p : props) : bool :=
  match chars (decimalSeparatorSymbol p) with
  | d :: _ =>
      negb (is_digit d) &&
      forallb (fun x => negb (Ascii.eqb x " " || Ascii.eqb x "-"
                               || Ascii.eqb x "092" || Ascii.eqb x "]"))
        (chars (decimalSeparatorSymbol p))
  | [] => false
  end.

(** A replacement text in which no [$] starts a pattern: it is not
    followed by [$], [&], a backquote or a quote, nor, where the pattern
    has captures, by a digit. *)
Fixpoint verbatim (captures : bool) (t : list ascii) : bool :=
  match t with
  | c :: r =>
      negb (Ascii.eqb c "$" &&
            match r with
            | d :: _ =>
                Ascii.eqb d "$" || Ascii.eqb d "&" || Ascii.eqb d "`"
                || Ascii.eqb d "'" || (captures && is_digit d)
            | [] => false
            end)
      && verbatim captures r
  | [] => true
  end.

(** The currency symbol and the separators are inserted as they are:
    none of them holds a replacement pattern. *)
Definition literal_texts (p : props) : bool :=
  verbatim false (chars (currency p))
  && verbatim true (chars (thousandSeparatorSymbol p))
  && verbatim false (chars (decimalSeparatorSymbol p)).

Local Close Scope string_scope.

(* ================================================================= *)
(** * The shape of formatted and unformatted text *)

Module Shape.
Import Accounting.

(** Texts without any digit, and texts of digits only. *)
Definition digit_free (l : list ascii) : Prop :=
  Forall (fun c => is_digit c = false) l.

Definition all_digits (l : list ascii) : Prop :=
  Forall (fun c => is_digit c = true) l.

(** What the filter of [unformat] keeps when the decimal separator is
    [dec], and the texts it drops entirely. *)
Definition kept (dec : list ascii) (x : ascii) : bool := keep_char dec x.

Definition inert (dec : list ascii) (l : list ascii) : Prop :=
  Forall (fun x => kept dec x = false) l.

(** Texts without an opening bracket, texts of minus signs only, and
    the characters of a plain decimal literal. *)
Definition bracket_free (l : list ascii) : Prop :=
  Forall (fun x => Ascii.eqb x "(" = false) l.

Definition dashes (l : list ascii) : Prop := Forall (fun x => x = "-"%char) l.

Definition plain (x : ascii) : Prop := is_digit x = true \/ x = "."%char.

(** What [formatNumber] prints for the scaled amount [r]. *)
Definition formatted_number (o : options) (r : N) : list ascii :=
  let base := digits_of_N (r / Npow10 (precision o)) in
  let md := if (3 <? length base)%nat then (length base mod 3)%nat else O in
  match md with
  | O => []
  | S _ => firstn md base ++ chars (thousand o)
  end ++
  group3 (chars (thousand o)) [] (skipn md base) ++
  match precision o with
  | O => []
  | S _ => chars (decimal o) ++
           fixed_digits (precision o) (r mod Npow10 (precision o))
  end.

(** A run of digits with the separator, as it is, after every group of
    three that another digit follows. *)
Fixpoint grouped (sep : list ascii) (ds : list ascii) : list ascii :=
  match ds with
  | a :: b :: c :: ((_ :: _) as tl) => a :: b :: c :: sep ++ grouped sep tl
  | _ => ds
  end.

(** The number part of a formatted amount whose thousand separator
    holds no replacement pattern: the integer digits grouped by three,
    the decimal separator and the fractional digits. *)
Definition number_text (o : options) (r : N) : list ascii :=
  let base := digits_of_N (r / Npow10 (precision o)) in
  let md := if (3 <? length base)%nat then (length base mod 3)%nat else O in
  match md with
  | O => []
  | S _ => firstn md base ++ chars (thousand o)
  end ++
  grouped (chars (thousand o)) (skipn md base) ++
  match precision o with
  | O => []
  | S _ => chars (decimal o) ++
           fixed_digits (precision o) (r mod Npow10 (precision o))
  end.

(** The digits and the decimal separator that survive the filter. *)
Definition scaled_text (point : list ascii) (p : nat) (r : N) : list ascii :=
  digits_of_N (r / Npow10 p) ++
  match p with
  | O => []
  | S _ => point ++ fixed_digits p (r mod Npow10 p)
  end.

(** The amount read back: [r] scaled down, with the sign given by the
    parity of the minus signs. *)
Definition read_back (negative : bool) (r : N) (p : nat) : Q :=
  if negative then Qopp (Z.of_N r # pow10 p) else Z.of_N r # pow10 p.

(** The absolute value of [q] scaled by [10^p] and rounded, and its
    sign, as [formatMoney] uses them. *)
Definition scaled (q : Q) (p : nat) : N :=
  Z.to_N (Accounting.round_scaled (Qabs q) p).

Definition negative (q : Q) : bool := negb (Qle_bool 0 q).

(** What [unformat] reads in the formatted text of [q]. *)
Definition read_value (q : Q) (p : nat) : Q :=
  read_back (negative q) (scaled q p) p.

(** A formatted amount depends on the sign and on the scaled, rounded
    absolute value only. *)
Definition money_text (o : Accounting.options) (neg : bool) (r : N) : string :=
  let f := chars (Accounting.format o) in
  text (replace_first (chars "%v") (formatted_number o r)
          (replace_first (chars "%s") (chars (Accounting.symbol o))
             (if neg then Accounting.neg_format f else f))).

End Shape.

(* ================================================================= *)
(** * Vocabulary of the further properties *)

Module Texts.

(** The characters a numeric literal and the white space around it are
    made of: digits, letters, the point and the signs. *)
Definition is_letter (c : ascii) : bool :=
  let n := N_of_ascii c in
  ((65 <=? n)%N && (n <=? 90)%N) || ((97 <=? n)%N && (n <=? 122)%N).

Definition numeric_char (c : ascii) : bool :=
  is_digit c || is_space c || Ascii.eqb c "." || Ascii.eqb c "+"
  || Ascii.eqb c "-" || is_letter c.

Definition numeric (l : list ascii) : Prop :=
  Forall (fun c => numeric_char c = true) l.

(** Printable ASCII punctuation other than the point and the signs: a
    character no numeric literal of JavaScript contains (a currency sign,
    a comma, a bracket, a percent sign). *)
Definition symbol_char (c : ascii) : bool :=
  let n := N_of_ascii c in
  (33 <=? n)%N && (n <=? 126)%N
  && negb ((48 <=? n)%N && (n <=? 57)%N)
  && negb ((65 <=? n)%N && (n <=? 90)%N)
  && negb ((97 <=? n)%N && (n <=? 122)%N)
  && negb ((n =? 43)%N || (n =? 45)%N || (n =? 46)%N).

(** What a commit may hand to the owner: a text or a number proper. *)
Definition committable (v : val) : Prop :=
  match v with
  | VStr _ => True
  | VNum (Num _) => True
  | _ => False
  end.

(** The minus sign of a negative amount, and the laid out text of an
    amount: the symbol first, the symbol last, or no symbol. *)
Definition sign_text (q : Q) : list ascii :=
  if Shape.negative q then ["-"%char] else [].

Definition layout (p : props) (q : Q) : list ascii :=
  let nt := Shape.number_text (money_options p) (Shape.scaled q (precision p)) in
  if negb (truthy_string (currency p)) then sign_text q ++ nt
  else if String.eqb (currencySymbolPosition p) "suffix"
       then sign_text q ++ nt ++ " "%char :: chars (currency p)
       else chars (currency p) ++ " "%char :: sign_text q ++ nt.

(** Half a unit in the last of [p] decimal places. *)
Definition half_unit (p : nat) : Q := 1 # (2 * pow10 p).

End Texts.

(** Unfolds a handler run down to the tests it branches on. *)
Ltac run_handler :=
  unfold run, VueNumeric.onBlurHandler, VueNumeric.update,
    VueNumeric.watch_value, VueNumeric.watch_separator,
    VueNumeric.watch_currency, VueNumeric.watch_precision,
    Part000.onBlurHandler, Part000.update, Part000.amount_length,
    Part000.watch_value, Part000.watch_separator,
    Part000.watch_currency, Part000.watch_precision,
    bind, emit, get_amount, set_amount, ret, throw;
  cbn [amount app fst snd].

(* ================================================================= *)
(** * Properties *)

(** ** Numbers pass through [unformat] *)

Lemma unformat_number (p : props) (q : Q) : unformat p (VNum (Num q)) = Num q.
Proof. reflexivity. Qed.

(** ** Lenient parsing: text without digits *)

Module ParseFacts.
Import Accounting Shape.

Lemma digit_free_app (a b : list ascii) :
  digit_free a -> digit_free b -> digit_free (a ++ b).
Proof. intros Ha Hb. apply Forall_app. now split. Qed.

Lemma digit_free_filter (f : ascii -> bool) (l : list ascii) :
  digit_free l -> digit_free (filter f l).
Proof.
  unfold digit_free. rewrite !Forall_forall. intros H c Hc.
  apply filter_In in Hc. now apply H.
Qed.

Lemma prefix_rest_app (pat s rest : list ascii) :
  prefix_rest pat s = Some rest -> s = pat ++ rest.
Proof.
  revert s. induction pat as [| a pat IH]; intros s H; simpl in H.
  - now inversion H.
  - destruct s as [| c s]; [discriminate |].
    destruct (Ascii.eqb_spec a c) as [-> | _]; [| discriminate].
    simpl. f_equal. now apply IH.
Qed.

Lemma find_first_unfold (pat s : list ascii) :
  find_first pat s =
    match prefix_rest pat s with
    | Some rest => Some ([], rest)
    | None =>
        match s with
        | c :: s' =>
            match find_first pat s' with
            | Some (before, after) => Some (c :: before, after)
            | None => None
            end
        | [] => None
        end
    end.
Proof. destruct s; reflexivity. Qed.

(** A pattern that is found stands between what is before and what is
    after it. *)
Lemma find_first_split (pat s b a : list ascii) :
  find_first pat s = Some (b, a) -> s = b ++ pat ++ a.
Proof.
  revert b a. induction s as [| c s IH]; intros b a H;
    rewrite find_first_unfold in H.
  - destruct (prefix_rest pat []) as [rest |] eqn:E; [| discriminate].
    inversion H; subst. exact (prefix_rest_app _ _ _ E).
  - destruct (prefix_rest pat (c :: s)) as [rest |] eqn:E.
    + inversion H; subst. exact (prefix_rest_app _ _ _ E).
    + destruct (find_first pat s) as [[b' a'] |]; [| discriminate].
      inversion H; subst. simpl. f_equal. now apply IH.
Qed.

Lemma replace_by_point (pat s : list ascii) :
  replace_first pat ["."%char] s =
    match find_first pat s with
    | Some (b, a) => b ++ "."%char :: a
    | None => s
    end.
Proof.
  unfold replace_first. destruct (find_first pat s) as [[b a] |]; reflexivity.
Qed.

Lemma digit_free_replace_first (pat s : list ascii) :
  digit_free s -> digit_free (replace_first pat ["."%char] s).
Proof.
  intros Hs. rewrite replace_by_point.
  destruct (find_first pat s) as [[b a] |] eqn:E; [| assumption].
  apply find_first_split in E. unfold digit_free in Hs. rewrite E in Hs.
  apply Forall_app in Hs. destruct Hs as [Hb Hpa].
  apply Forall_app in Hpa. destruct Hpa as [_ Ha].
  apply digit_free_app; [assumption |]. constructor; [reflexivity | assumption].
Qed.

Lemma span_close_app (s body r : list ascii) :
  span_close s = Some (body, r) -> s = body ++ ")"%char :: r.
Proof.
  revert body r. induction s as [| c s IH]; intros body r H; simpl in H.
  - discriminate.
  - destruct (Ascii.eqb_spec c ")") as [-> | _].
    + now inversion H.
    + destruct (span_close s) as [[b' r'] |]; [| discriminate].
      inversion H; subst. simpl. f_equal. now apply IH.
Qed.

(** The fuel [cleaned] gives, the length of the text, is enough: more
    would not change the result. *)
Lemma bracket_negatives_enough (f1 f2 : nat) (s : list ascii) :
  (length s <= f1)%nat -> (length s <= f2)%nat ->
  bracket_negatives f1 s = bracket_negatives f2 s.
Proof.
  revert s f2. induction f1 as [| f1 IH]; intros s f2 H1 H2.
  - destruct s; [| simpl in H1; lia]. now destruct f2.
  - destruct s as [| c s]; [now destruct f2 |].
    destruct f2 as [| f2]; [simpl in H2; lia |].
    simpl in H1, H2. cbn [bracket_negatives].
    assert (Hskip : c :: bracket_negatives f1 s = c :: bracket_negatives f2 s)
      by (f_equal; apply IH; lia).
    destruct (Ascii.eqb c "("); [| assumption].
    destruct (span_close s) as [[body r] |] eqn:E; [| assumption].
    destruct (bracket_body body); [| assumption].
    apply span_close_app in E. subst s.
    rewrite length_app in H1, H2. simpl in H1, H2.
    f_equal. f_equal. apply IH; lia.
Qed.

Lemma digit_free_bracket_negatives (fuel : nat) (s : list ascii) :
  digit_free s -> digit_free (bracket_negatives fuel s).
Proof.
  revert s. induction fuel as [| f IH]; intros s Hs; simpl; [assumption |].
  destruct s as [| c s]; [constructor |].
  inversion Hs as [| ? ? Hc Hs']; subst.
  assert (Hskip : digit_free (c :: bracket_negatives f s))
    by (constructor; [assumption | now apply IH]).
  destruct (Ascii.eqb c "("); [| assumption].
  destruct (span_close s) as [[body r] |] eqn:E; [| assumption].
  destruct (bracket_body body); [| assumption].
  apply span_close_app in E. unfold digit_free in Hs'. rewrite E in Hs'.
  apply Forall_app in Hs'. destruct Hs' as [Hb Hr].
  inversion Hr; subst.
  constructor; [reflexivity |]. apply digit_free_app; [assumption | now apply IH].
Qed.

Lemma after_last_close_suffix (s r : list ascii) :
  after_last_close s = Some r -> exists pre, s = pre ++ r.
Proof.
  revert r. induction s as [| c s IH]; intros r H; simpl in H; [discriminate |].
  destruct (after_last_close s) as [r' |].
  - inversion H; subst. destruct (IH r eq_refl) as [pre ->].
    now exists (c :: pre).
  - destruct (Ascii.eqb c ")"); [| discriminate].
    inversion H; subst. now exists [c].
Qed.

Lemma digit_free_drop_brackets (s : list ascii) :
  digit_free s -> digit_free (drop_brackets s).
Proof.
  induction s as [| c s IH]; intros Hs; simpl; [constructor |].
  inversion Hs; subst.
  destruct (Ascii.eqb c "(").
  - destruct (after_last_close s) as [r |] eqn:E; [| assumption].
    apply after_last_close_suffix in E. destruct E as [pre ->].
    match goal with H : Forall _ (pre ++ r) |- _ => apply Forall_app in H; tauto end.
  - constructor; [assumption | now apply IH].
Qed.

Lemma digit_free_cleaned (s decimal : list ascii) :
  digit_free s -> digit_free (cleaned s decimal).
Proof.
  intros Hs. unfold cleaned.
  apply digit_free_drop_brackets, digit_free_bracket_negatives,
    digit_free_replace_first.
  now apply digit_free_filter.
Qed.

Lemma span_digits_digit_free (s : list ascii) :
  digit_free s -> span_digits s = ([], s).
Proof.
  intros Hs. destruct s as [| c s]; [reflexivity |].
  inversion Hs as [| ? ? Hc _]; subst. simpl. now rewrite Hc.
Qed.

Lemma parse_decimal_digit_free (s : list ascii) :
  digit_free s -> parse_decimal s = None.
Proof.
  intros Hs. unfold parse_decimal. rewrite (span_digits_digit_free s Hs).
  destruct s as [| c s]; [reflexivity |].
  destruct (Ascii.eqb c "."); [| reflexivity].
  inversion Hs; subst. now rewrite span_digits_digit_free.
Qed.

Lemma skip_spaces_digit_free (s : list ascii) :
  digit_free s -> digit_free (skip_spaces s).
Proof.
  induction s as [| c s IH]; intros Hs; simpl; [constructor |].
  destruct (is_space c); [| assumption].
  inversion Hs; subst. now apply IH.
Qed.

Lemma parseFloat_digit_free (s : list ascii) :
  digit_free s -> parseFloat s = NaN.
Proof.
  intros Hs. unfold parseFloat, parse_signed.
  apply skip_spaces_digit_free in Hs.
  destruct (skip_spaces s) as [| c r]; [reflexivity |].
  inversion Hs; subst.
  destruct (Ascii.eqb c "-"); [now rewrite parse_decimal_digit_free |].
  destruct (Ascii.eqb c "+"); now rewrite parse_decimal_digit_free.
Qed.

(** A text without digits unformats to 0. *)
Lemma parse_text_digit_free (s decimal : string) :
  digit_free (chars s) -> parse_text s decimal = Num 0%Q.
Proof.
  intros Hs. unfold parse_text.
  rewrite parseFloat_digit_free; [reflexivity |].
  now apply digit_free_filter, digit_free_cleaned.
Qed.

End ParseFacts.

(** ** Replacement texts without patterns *)

Module SubstitutionFacts.

Lemma capture_none (i : N) : capture [] i = None.
Proof.
  unfold capture. destruct (i =? 0)%N; [reflexivity |].
  now destruct (N.to_nat (i - 1)).
Qed.

Lemma capture_beyond (m : list ascii) (i : N) :
  (2 <= i)%N -> capture [m] i = None.
Proof.
  intros Hi. unfold capture. destruct (N.eqb_spec i 0); [reflexivity |].
  apply nth_error_None. simpl. lia.
Qed.

(** A character that starts no pattern stands for itself. *)
Lemma substitution_keep (k : bool) (m b a : list ascii)
    (caps : list (list ascii)) (c : ascii) (r : list ascii) :
  verbatim k (c :: r) = true -> (k = false -> caps = []) ->
  substitution m b a caps (c :: r) = c :: substitution m b a caps r.
Proof.
  intros Ht Hk. cbn [verbatim] in Ht.
  apply andb_true_iff in Ht. destruct Ht as [Hc _].
  destruct (Ascii.eqb c "$") eqn:Ec.
  - destruct r as [| d r1]; [cbn [substitution]; now rewrite Ec |].
    cbn [andb negb] in Hc. apply negb_true_iff in Hc.
    rewrite !orb_false_iff in Hc. destruct Hc as ((((H1 & H2) & H3) & H4) & H5).
    cbn [substitution]. rewrite Ec, H1, H2, H3, H4.
    destruct (is_digit d) eqn:Ed; [| reflexivity].
    destruct k; [discriminate H5 |].
    rewrite (Hk eq_refl), !capture_none.
    destruct r1 as [| d2 r2]; [reflexivity |].
    destruct (is_digit d2); rewrite ?capture_none; reflexivity.
  - cbn [substitution]. now rewrite Ec.
Qed.

Lemma verbatim_tail (k : bool) (c : ascii) (r : list ascii) :
  verbatim k (c :: r) = true -> verbatim k r = true.
Proof. cbn [verbatim]. intros H. apply andb_true_iff in H. tauto. Qed.

(** A text without patterns is inserted as it is. *)
Lemma substitution_verbatim (k : bool) (m b a : list ascii)
    (caps : list (list ascii)) (t : list ascii) :
  verbatim k t = true -> (k = false -> caps = []) ->
  substitution m b a caps t = t.
Proof.
  intros Ht Hk. induction t as [| c r IH]; [reflexivity |].
  rewrite (substitution_keep k); [| assumption | assumption].
  f_equal. apply IH. exact (verbatim_tail k c r Ht).
Qed.

Lemma replace_first_verbatim (pat rep s : list ascii) :
  verbatim false rep = true ->
  replace_first pat rep s =
    match find_first pat s with
    | Some (b, a) => b ++ rep ++ a
    | None => s
    end.
Proof.
  intros Hrep. unfold replace_first.
  destruct (find_first pat s) as [[b a] |]; [| reflexivity].
  now rewrite (substitution_verbatim false).
Qed.

Lemma prefix_rest_here (pat rest : list ascii) :
  prefix_rest pat (pat ++ rest) = Some rest.
Proof. induction pat as [| a pat IH]; simpl; [reflexivity |]. now rewrite Ascii.eqb_refl. Qed.

Lemma find_first_here (pat rest : list ascii) :
  find_first pat (pat ++ rest) = Some ([], rest).
Proof. now rewrite ParseFacts.find_first_unfold, prefix_rest_here. Qed.

(** Where the pattern occurs, the first occurrence cuts the text around
    one occurrence. *)
Lemma find_first_occurs (pat a b : list ascii) :
  exists pre post,
    find_first pat (a ++ pat ++ b) = Some (pre, post) /\
    pre ++ pat ++ post = a ++ pat ++ b.
Proof.
  induction a as [| x a IH].
  - exists [], b. split; [exact (find_first_here pat b) | reflexivity].
  - cbn [app]. rewrite ParseFacts.find_first_unfold.
    destruct (prefix_rest pat (x :: a ++ pat ++ b)) as [rest |] eqn:E.
    + exists [], rest. split; [reflexivity |].
      symmetry. exact (ParseFacts.prefix_rest_app _ _ _ E).
    + destruct IH as (pre & post & H1 & H2). rewrite H1.
      exists (x :: pre), post. split; [reflexivity |]. simpl. now rewrite H2.
Qed.

(** A pattern is not found before the first occurrence of its first
    character. *)
Lemma find_first_skip (d0 : ascii) (ds pre rest : list ascii) :
  Forall (fun x => Ascii.eqb d0 x = false) pre ->
  find_first (d0 :: ds) (pre ++ (d0 :: ds) ++ rest) = Some (pre, rest).
Proof.
  induction 1 as [| x l Hx _ IH].
  - exact (find_first_here (d0 :: ds) rest).
  - cbn [app]. rewrite ParseFacts.find_first_unfold.
    cbn [prefix_rest]. rewrite Hx. cbn [app] in IH. now rewrite IH.
Qed.

Lemma find_first_none (d0 : ascii) (ds l : list ascii) :
  Forall (fun x => Ascii.eqb d0 x = false) l ->
  find_first (d0 :: ds) l = None.
Proof.
  induction 1 as [| x l Hx _ IH]; [reflexivity |].
  rewrite ParseFacts.find_first_unfold. cbn [prefix_rest]. now rewrite Hx, IH.
Qed.

(** The template of [group3] starts with the group, whatever the
    separator. *)
Lemma group_template_head (m before after sep : list ascii) :
  substitution m before after [m] ("$"%char :: "1"%char :: sep) =
    m ++ substitution m before after [m] sep.
Proof.
  destruct sep as [| d2 r2]; [reflexivity |].
  cbn [substitution].
  change (Ascii.eqb "$" "$") with true. cbv iota.
  change (Ascii.eqb "1" "$") with false.
  change (Ascii.eqb "1" "&") with false.
  change (Ascii.eqb "1" "`") with false.
  change (Ascii.eqb "1" "'") with false.
  change (is_digit "1") with true. cbv iota.
  change (digit_val "1") with 1%N.
  change (capture [m] 1) with (Some m).
  rewrite capture_beyond by lia.
  destruct (is_digit d2); reflexivity.
Qed.

(** With a separator that holds no pattern, it puts the separator
    after the group. *)
Lemma group_template (m before after sep : list ascii) :
  verbatim true sep = true ->
  substitution m before after [m] ("$"%char :: "1"%char :: sep) = m ++ sep.
Proof.
  intros Hsep. rewrite group_template_head.
  now rewrite (substitution_verbatim true) by (assumption || discriminate).
Qed.

Lemma group3_grouped (sep : list ascii) (n : nat) :
  verbatim true sep = true ->
  forall before ds, (length ds <= n)%nat ->
  Accounting.group3 sep before ds = Shape.grouped sep ds.
Proof.
  intros Hsep. induction n as [| n IH]; intros before ds Hlen.
  - destruct ds; [reflexivity | simpl in Hlen; lia].
  - destruct ds as [| x1 [| x2 [| x3 [| x4 tl]]]]; try reflexivity.
    change (Accounting.group3 sep before (x1 :: x2 :: x3 :: x4 :: tl))
      with (substitution [x1; x2; x3] before (x4 :: tl) [[x1; x2; x3]]
              ("$"%char :: "1"%char :: sep)
            ++ Accounting.group3 sep (before ++ [x1; x2; x3]) (x4 :: tl)).
    change (Shape.grouped sep (x1 :: x2 :: x3 :: x4 :: tl))
      with (x1 :: x2 :: x3 :: sep ++ Shape.grouped sep (x4 :: tl)).
    rewrite (group_template _ _ _ _ Hsep), IH by (simpl in Hlen |- *; lia).
    reflexivity.
Qed.

End SubstitutionFacts.

(** ** Printing and reading digits *)

Module DigitFacts.
Import Accounting Shape.

Lemma N_of_digit_char (d : N) :
  (d < 10)%N -> N_of_ascii (digit_char d) = (48 + d)%N.
Proof. intros Hd. unfold digit_char. apply N_ascii_embedding. lia. Qed.

Lemma is_digit_digit_char (d : N) : (d < 10)%N -> is_digit (digit_char d) = true.
Proof.
  intros Hd. unfold is_digit. rewrite (N_of_digit_char d Hd).
  apply andb_true_iff. split; apply N.leb_le; lia.
Qed.

Lemma digit_val_digit_char (d : N) : (d < 10)%N -> digit_val (digit_char d) = d.
Proof. intros Hd. unfold digit_val. rewrite (N_of_digit_char d Hd). lia. Qed.

Lemma mod10_lt (n : N) : (n mod 10 < 10)%N.
Proof. apply N.mod_lt. discriminate. Qed.

Lemma digits_value_snoc (ds : list ascii) (c : ascii) :
  digits_value (ds ++ [c]) = (10 * digits_value ds + digit_val c)%N.
Proof. unfold digits_value. now rewrite fold_left_app. Qed.

Lemma digits_fuel_acc (fuel : nat) (n : N) (acc : list ascii) :
  digits_fuel fuel n acc = digits_fuel fuel n [] ++ acc.
Proof.
  revert n acc. induction fuel as [| f IH]; intros n acc; simpl; [reflexivity |].
  destruct (n / 10 =? 0)%N; [reflexivity |].
  rewrite (IH _ (_ :: acc)), (IH _ [_]), <- app_assoc. reflexivity.
Qed.

Lemma digits_fuel_step (f : nat) (n : N) :
  digits_fuel (S f) n [] =
    if (n / 10 =? 0)%N then [digit_char (n mod 10)]
    else digits_fuel f (n / 10) [] ++ [digit_char (n mod 10)].
Proof. simpl. destruct (n / 10 =? 0)%N; [reflexivity | apply digits_fuel_acc]. Qed.

Lemma digits_fuel_all_digits (fuel : nat) (n : N) :
  all_digits (digits_fuel fuel n []).
Proof.
  revert n. induction fuel as [| f IH]; intros n; [constructor |].
  rewrite digits_fuel_step.
  assert (Hd : all_digits [digit_char (n mod 10)])
    by (constructor; [apply is_digit_digit_char, mod10_lt | constructor]).
  destruct (n / 10 =? 0)%N; [assumption |].
  apply Forall_app. split; [apply IH | assumption].
Qed.

Lemma digits_fuel_value (fuel : nat) (n : N) :
  (n < 2 ^ N.of_nat fuel)%N -> digits_value (digits_fuel fuel n []) = n.
Proof.
  revert n. induction fuel as [| f IH]; intros n Hn.
  - simpl in Hn. assert (n = 0%N) by lia. now subst.
  - rewrite digits_fuel_step.
    pose proof (N.div_mod n 10 ltac:(discriminate)) as Hdm.
    pose proof (mod10_lt n) as Hlt.
    destruct (N.eqb_spec (n / 10) 0) as [Hz | Hz].
    + unfold digits_value. simpl. rewrite (digit_val_digit_char _ Hlt). lia.
    + rewrite digits_value_snoc, (digit_val_digit_char _ Hlt), IH; [lia |].
      rewrite Nat2N.inj_succ, N.pow_succ_r' in Hn.
      apply N.Div0.div_lt_upper_bound. lia.
Qed.

Lemma digits_of_N_all_digits (n : N) : all_digits (digits_of_N n).
Proof. apply digits_fuel_all_digits. Qed.

Lemma digits_of_N_value (n : N) : digits_value (digits_of_N n) = n.
Proof.
  apply digits_fuel_value.
  rewrite Nat2N.inj_succ, N2Nat.id.
  destruct n as [| q]; [reflexivity |].
  apply N.log2_spec. reflexivity.
Qed.

Lemma digits_of_N_nonempty (n : N) : digits_of_N n <> [].
Proof.
  unfold digits_of_N. rewrite digits_fuel_step.
  destruct (n / 10 =? 0)%N; [discriminate |].
  intros H. apply app_eq_nil in H. destruct H as [_ H]. discriminate.
Qed.

Lemma Npow10_S (k : nat) : Npow10 (S k) = (10 * Npow10 k)%N.
Proof. reflexivity. Qed.

Lemma fixed_digits_all_digits (w : nat) (n : N) : all_digits (fixed_digits w n).
Proof.
  revert n. induction w as [| w IH]; intros n; simpl; [constructor |].
  apply Forall_app. split; [apply IH |].
  constructor; [apply is_digit_digit_char, mod10_lt | constructor].
Qed.

Lemma fixed_digits_length (w : nat) (n : N) : length (fixed_digits w n) = w.
Proof.
  revert n. induction w as [| w IH]; intros n; simpl; [reflexivity |].
  rewrite length_app, IH. simpl. lia.
Qed.

Lemma fixed_digits_value (w : nat) (n : N) (ds : list ascii) :
  digits_value (ds ++ fixed_digits w n) =
    (digits_value ds * Npow10 w + n mod Npow10 w)%N.
Proof.
  revert n. induction w as [| w IH]; intros n.
  - simpl. rewrite app_nil_r. change (Npow10 0) with 1%N.
    rewrite N.mod_1_r. lia.
  - simpl fixed_digits. rewrite app_assoc, digits_value_snoc, IH.
    rewrite (digit_val_digit_char _ (mod10_lt n)), Npow10_S.
    rewrite (N.Div0.mod_mul_r n 10 (Npow10 w)). lia.
Qed.

(** The integer and the fractional digits of a scaled amount, read
    back. *)
Lemma scaled_digits_value (w : nat) (r : N) :
  digits_value (digits_of_N (r / Npow10 w) ++ fixed_digits w (r mod Npow10 w)) = r.
Proof.
  rewrite fixed_digits_value, digits_of_N_value.
  rewrite N.Div0.mod_mod.
  pose proof (N.div_mod r (Npow10 w) ltac:(discriminate)). lia.
Qed.

End DigitFacts.

(** ** Rounding to the precision *)

Module RoundFacts.
Import Accounting.

Lemma pow10_S (k : nat) : pow10 (S k) = (10 * pow10 k)%positive.
Proof. reflexivity. Qed.

Lemma round_scaled_compat (q1 q2 : Q) (p : nat) :
  (q1 == q2)%Q -> round_scaled q1 p = round_scaled q2 p.
Proof. intros H. unfold round_scaled. now rewrite H. Qed.

Lemma round_scaled_le (q1 q2 : Q) (p : nat) :
  (q1 <= q2)%Q -> round_scaled q1 p <= round_scaled q2 p.
Proof.
  intros H. unfold round_scaled. apply Qfloor_resp_le.
  apply Qplus_le_compat; [| apply Qle_refl].
  apply Qmult_le_compat_r; [| discriminate].
  apply Qplus_le_compat; [assumption | apply Qle_refl].
Qed.

(** A multiple of the unit is rounded to itself plus what the nudge
    alone is rounded to. *)
Lemma round_scaled_multiple (a : Z) (p : nat) :
  round_scaled (a # pow10 p) p = a + round_scaled 0 p.
Proof.
  unfold round_scaled, nudge, Qfloor, Qplus, Qmult, inject_Z. cbn [Qnum Qden].
  rewrite !Pos2Z.inj_mul.
  set (P := Zpos (pow10 p)).
  assert (HP : 0 < P) by (subst P; lia).
  replace ((0 * 100000000 + 1 * 1) * P * 2 + 1 * (1 * 100000000 * 1))
    with (2 * P + 100000000) by lia.
  replace (1 * 100000000 * 1 * 2) with 200000000 by lia.
  pose proof (Z.div_mod (2 * P + 100000000) 200000000 ltac:(lia)) as Hdm.
  pose proof (Z.mod_pos_bound (2 * P + 100000000) 200000000 ltac:(lia)) as Hm.
  set (X := (2 * P + 100000000) / 200000000) in *.
  set (R := (2 * P + 100000000) mod 200000000) in *.
  clearbody X R. clearbody P.
  symmetry. apply (Z.div_unique _ _ (a + X) (P * R)).
  { left. split; [apply Z.mul_nonneg_nonneg; lia |].
    replace (P * 100000000 * 1 * 2) with (P * 200000000) by ring.
    apply Z.mul_lt_mono_pos_l; lia. }
  transitivity (P * (2 * P + 100000000) + a * (P * 200000000)); [ring |].
  rewrite Hdm. ring.
Qed.

(** Up to seven decimals the nudge is rounded away; from eight on it
    is one unit of the eighth. *)
Lemma round_scaled_zero_low (p : nat) : (p <= 7)%nat -> round_scaled 0 p = 0.
Proof.
  intros H. do 8 (destruct p as [| p]; [reflexivity |]). lia.
Qed.

Lemma round_scaled_zero_high (k : nat) :
  round_scaled 0 (8 + k) = Zpos (pow10 k).
Proof.
  change (8 + k)%nat with (S (S (S (S (S (S (S (S k)))))))).
  unfold round_scaled, nudge, Qfloor, Qplus, Qmult, inject_Z. cbn [Qnum Qden].
  rewrite !pow10_S, !Pos2Z.inj_mul.
  set (K := Zpos (pow10 k)).
  assert (HK : 0 < K) by (subst K; lia).
  symmetry. apply (Z.div_unique _ _ K 100000000); [left |]; lia.
Qed.

Lemma round_scaled_exact (a : Z) (p : nat) :
  (p <= 7)%nat -> round_scaled (a # pow10 p) p = a.
Proof.
  intros H. rewrite round_scaled_multiple, (round_scaled_zero_low p H). lia.
Qed.

Lemma round_scaled_nonneg (q : Q) (p : nat) :
  (0 <= q)%Q -> 0 <= round_scaled q p.
Proof.
  intros H. apply (Z.le_trans _ (round_scaled 0 p)).
  - unfold round_scaled.
    apply (Qfloor_resp_le 0 ((0 + nudge) * inject_Z (Zpos (pow10 p)) + (1 # 2))).
    unfold Qle, nudge, Qplus, Qmult, inject_Z. cbn [Qnum Qden]. lia.
  - now apply round_scaled_le.
Qed.

End RoundFacts.

(** ** Reading back a formatted amount *)

Module ReadBack.
Import Accounting Shape DigitFacts.

Section Separator.

(** The decimal separator, with its first character [d0]. *)
Variable d0 : ascii.
Variable ds : list ascii.

Local Abbreviation dec := (d0 :: ds).
Local Abbreviation kept := (Shape.kept dec).
Local Abbreviation inert := (Shape.inert dec).

Lemma kept_digit (x : ascii) : is_digit x = true -> kept x = true.
Proof. intros H. unfold Shape.kept, keep_char. now rewrite H. Qed.

Lemma filter_kept_digits (l : list ascii) :
  all_digits l -> filter kept l = l.
Proof.
  induction 1 as [| x l Hx _ IH]; simpl; [reflexivity |].
  now rewrite (kept_digit x Hx), IH.
Qed.

Lemma filter_kept_inert (l : list ascii) : inert l -> filter kept l = [].
Proof.
  induction 1 as [| x l Hx _ IH]; simpl; [reflexivity |]. now rewrite Hx.
Qed.

Lemma filter_kept_grouped (sep : list ascii) (n : nat) :
  inert sep ->
  forall l, (length l <= n)%nat -> all_digits l ->
  filter kept (grouped sep l) = l.
Proof.
  intros Hsep. induction n as [| n IH]; intros l Hlen Hl.
  - destruct l; [reflexivity | simpl in Hlen; lia].
  - destruct l as [| x1 [| x2 [| x3 [| x4 tl]]]];
      try (apply filter_kept_digits; assumption).
    inversion Hl as [| ? ? H1 Hl1]; subst.
    inversion Hl1 as [| ? ? H2 Hl2]; subst.
    inversion Hl2 as [| ? ? H3 Hl3]; subst.
    change (grouped sep (x1 :: x2 :: x3 :: x4 :: tl))
      with (x1 :: x2 :: x3 :: sep ++ grouped sep (x4 :: tl)).
    cbn [filter].
    rewrite (kept_digit _ H1), (kept_digit _ H2), (kept_digit _ H3).
    rewrite filter_app, (filter_kept_inert sep Hsep), IH;
      [reflexivity | simpl in Hlen |- *; lia | assumption].
Qed.

Lemma all_digits_split (k : nat) (l : list ascii) :
  all_digits l -> all_digits (firstn k l) /\ all_digits (skipn k l).
Proof.
  intros H. rewrite <- (firstn_skipn k l) in H. now apply Forall_app in H.
Qed.

(** The characters of the decimal separator are kept. *)
Lemma filter_kept_decimal : filter kept dec = dec.
Proof.
  assert (H : forall l, (forall x, In x l -> kept x = true) -> filter kept l = l).
  { induction l as [| x l IH]; intros Hl; [reflexivity |].
    cbn [filter]. rewrite (Hl x (or_introl eq_refl)). f_equal.
    apply IH. intros y Hy. apply Hl. now right. }
  apply H. intros x Hx. unfold Shape.kept, keep_char.
  assert (He : existsb (Ascii.eqb x) dec = true).
  { apply existsb_exists. exists x. split; [assumption | apply Ascii.eqb_refl]. }
  rewrite He. apply orb_true_r.
Qed.

(** ** Brackets *)

Lemma bracket_negatives_free (fuel : nat) (l : list ascii) :
  bracket_free l -> bracket_negatives fuel l = l.
Proof.
  revert l. induction fuel as [| f IH]; intros l Hl; simpl; [reflexivity |].
  destruct l as [| x l]; [reflexivity |].
  inversion Hl as [| ? ? Hx Hl']; subst. rewrite Hx. f_equal. now apply IH.
Qed.

Lemma drop_brackets_free (l : list ascii) :
  bracket_free l -> drop_brackets l = l.
Proof.
  induction 1 as [| x l Hx _ IH]; simpl; [reflexivity |].
  rewrite Hx. now f_equal.
Qed.

(** ** Reading digits *)

Lemma digit_not_space (x : ascii) : is_digit x = true -> is_space x = false.
Proof.
  unfold is_digit, is_space. intros H.
  apply andb_true_iff in H. destruct H as [H1 H2].
  apply N.leb_le in H1. apply N.leb_le in H2.
  apply orb_false_iff. split.
  - apply N.eqb_neq. lia.
  - apply andb_false_iff. right. apply N.leb_gt. lia.
Qed.

Lemma digit_not_char (x y : ascii) :
  is_digit x = true -> is_digit y = false -> Ascii.eqb x y = false.
Proof.
  intros Hx Hy. destruct (Ascii.eqb_spec x y) as [-> | _]; [congruence | reflexivity].
Qed.

Lemma span_digits_app (l r : list ascii) :
  all_digits l ->
  match r with [] => True | x :: _ => is_digit x = false end ->
  span_digits (l ++ r) = (l, r).
Proof.
  intros Hl Hr. induction Hl as [| x l Hx _ IH]; simpl.
  - destruct r as [| y r]; [reflexivity |]. simpl. now rewrite Hr.
  - now rewrite Hx, IH.
Qed.

Lemma parse_decimal_fixed (l fs : list ascii) :
  all_digits l -> l <> [] -> all_digits fs ->
  parse_decimal (l ++ match fs with [] => [] | _ :: _ => "."%char :: fs end) =
    Some (decimal_of l fs, []).
Proof.
  intros Hl Hne Hfs. unfold parse_decimal.
  destruct fs as [| f fs].
  - rewrite (span_digits_app l [] Hl I).
    destruct l; [contradiction | reflexivity].
  - rewrite (span_digits_app l ("."%char :: f :: fs) Hl eq_refl).
    cbn [Ascii.eqb Bool.eqb].
    change (Ascii.eqb "." ".") with true. cbv iota.
    rewrite <- (app_nil_r (f :: fs)) at 1.
    rewrite (span_digits_app (f :: fs) [] Hfs I).
    destruct l; [contradiction | reflexivity].
Qed.

Lemma parseFloat_fixed (l fs : list ascii) :
  all_digits l -> l <> [] -> all_digits fs ->
  parseFloat (l ++ match fs with [] => [] | _ :: _ => "."%char :: fs end) =
    Num (decimal_of l fs).
Proof.
  intros Hl Hne Hfs. unfold parseFloat.
  destruct l as [| d l]; [contradiction |].
  inversion Hl as [| ? ? Hd Hl']; subst.
  cbn [app skip_spaces]. rewrite (digit_not_space d Hd).
  unfold parse_signed.
  rewrite (digit_not_char d "-" Hd eq_refl), (digit_not_char d "+" Hd eq_refl).
  change (d :: l ++ match fs with [] => [] | _ :: _ => "."%char :: fs end)
    with ((d :: l) ++ match fs with [] => [] | _ :: _ => "."%char :: fs end).
  now rewrite (parse_decimal_fixed (d :: l) fs Hl Hne Hfs).
Qed.

(** ** The number part of a formatted amount *)

Hypothesis d0_not_digit : is_digit d0 = false.
Hypothesis d0_not_dash : Ascii.eqb d0 "-" = false.

Lemma Qabs_Qabs (q : Q) : Qabs (Qabs q) = Qabs q.
Proof. destruct q as [n d]. unfold Qabs. now rewrite Z.abs_idemp. Qed.

Lemma formatNumber_abs (o : options) (q : Q) :
  formatNumber (num_abs (Num q)) o =
    formatted_number o (Z.to_N (round_scaled (Qabs q) (precision o))).
Proof.
  unfold formatNumber, num_abs, formatted_number. rewrite Qabs_Qabs.
  assert (H : Qle_bool 0 (Qabs q) = true)
    by (apply Qle_bool_iff, Qabs_nonneg).
  rewrite H. reflexivity.
Qed.

(** With a thousand separator that holds no pattern, the digits are
    grouped by the separator itself. *)
Lemma formatted_number_text (o : options) (r : N) :
  verbatim true (chars (thousand o)) = true ->
  formatted_number o r = number_text o r.
Proof.
  intros Hth. unfold formatted_number, number_text.
  now rewrite (SubstitutionFacts.group3_grouped _ _ Hth [] _ (le_n _)).
Qed.

Lemma filter_kept_number_text (o : options) (r : N) :
  chars (decimal o) = dec ->
  inert (chars (thousand o)) ->
  filter kept (number_text o r) = scaled_text dec (precision o) r.
Proof.
  intros Hdec Hth. unfold number_text, scaled_text.
  set (base := digits_of_N (r / Npow10 (precision o))).
  set (md := if (3 <? length base)%nat then (length base mod 3)%nat else O).
  pose proof (digits_of_N_all_digits (r / Npow10 (precision o))) as Hbase.
  fold base in Hbase.
  destruct (all_digits_split md base Hbase) as [Hfirst Hskip].
  rewrite !filter_app.
  rewrite (filter_kept_grouped _ (length (skipn md base)) Hth _ (le_n _) Hskip).
  assert (Hhead :
    filter kept match md with
                | O => []
                | S _ => firstn md base ++ chars (thousand o)
                end = firstn md base).
  { destruct md as [| k] eqn:E; [reflexivity |].
    rewrite filter_app, (filter_kept_digits _ Hfirst),
      (filter_kept_inert _ Hth). apply app_nil_r. }
  rewrite Hhead, app_assoc, firstn_skipn. f_equal.
  destruct (precision o) as [| k]; [reflexivity |].
  rewrite Hdec, filter_app, filter_kept_decimal. f_equal.
  apply filter_kept_digits, fixed_digits_all_digits.
Qed.

Lemma dashes_not_d0 (l : list ascii) :
  dashes l -> Forall (fun x => Ascii.eqb d0 x = false) l.
Proof. apply Forall_impl. now intros x ->. Qed.

Lemma digits_not_d0 (l : list ascii) :
  all_digits l -> Forall (fun x => Ascii.eqb d0 x = false) l.
Proof.
  apply Forall_impl. intros x Hx.
  destruct (Ascii.eqb_spec d0 x) as [<- | _]; [congruence | reflexivity].
Qed.

(** The decimal separator becomes the decimal point. *)
Lemma pointed_scaled_text (p : nat) (r : N) (d1 d2 : list ascii) :
  dashes d1 -> dashes d2 ->
  replace_first dec ["."%char] (d1 ++ scaled_text dec p r ++ d2) =
    d1 ++ scaled_text ["."%char] p r ++ d2.
Proof.
  intros H1 H2. rewrite ParseFacts.replace_by_point. unfold scaled_text.
  pose proof (digits_not_d0 _ (digits_of_N_all_digits (r / Npow10 p))) as Hds.
  destruct p as [| k].
  - rewrite SubstitutionFacts.find_first_none; [reflexivity |].
    rewrite !app_nil_r.
    apply Forall_app. split; [now apply dashes_not_d0 |].
    apply Forall_app. split; [assumption | now apply dashes_not_d0].
  - set (fs := fixed_digits (S k) (r mod Npow10 (S k))).
    set (ip := digits_of_N (r / Npow10 (S k))) in *.
    replace (d1 ++ (ip ++ dec ++ fs) ++ d2)
      with ((d1 ++ ip) ++ dec ++ (fs ++ d2))
      by (now rewrite <- !app_assoc).
    rewrite SubstitutionFacts.find_first_skip.
    + cbn [app]. now rewrite <- !app_assoc.
    + apply Forall_app. split; [now apply dashes_not_d0 | assumption].
Qed.

(** ** What [unformat] reads in a formatted amount *)

Lemma scaled_text_plain (p : nat) (r : N) :
  Forall plain (scaled_text ["."%char] p r).
Proof.
  unfold scaled_text. apply Forall_app. split.
  - eapply Forall_impl; [| apply digits_of_N_all_digits]. now left.
  - destruct p as [| k]; [constructor |].
    constructor; [now right |].
    eapply Forall_impl; [| apply fixed_digits_all_digits]. now left.
Qed.

Lemma plain_not_dash (x : ascii) : plain x -> is_dash x = false.
Proof.
  intros [H | ->]; [| reflexivity].
  unfold is_dash. now apply digit_not_char.
Qed.

Lemma plain_not_bracket (x : ascii) : plain x -> Ascii.eqb x "(" = false.
Proof. intros [H | ->]; [| reflexivity]. now apply digit_not_char. Qed.

Lemma filter_dash_plain (l : list ascii) :
  Forall plain l ->
  filter is_dash l = [] /\ filter (fun x => negb (is_dash x)) l = l.
Proof.
  induction 1 as [| x l Hx _ [IH1 IH2]]; [now split |].
  cbn [filter]. rewrite (plain_not_dash x Hx). cbn [negb].
  split; [assumption | now f_equal].
Qed.

Lemma filter_dash_dashes (l : list ascii) :
  dashes l ->
  filter is_dash l = l /\ filter (fun x => negb (is_dash x)) l = [].
Proof.
  induction 1 as [| x l Hx _ [IH1 IH2]]; [now split |].
  subst x. cbn [filter]. change (is_dash "-") with true. cbn [negb].
  split; [now f_equal | assumption].
Qed.

Lemma dashes_bracket_free (l : list ascii) : dashes l -> bracket_free l.
Proof. apply Forall_impl. now intros x ->. Qed.

Lemma scaled_text_parse (p : nat) (r : N) :
  parseFloat (scaled_text ["."%char] p r) = Num (Z.of_N r # pow10 p).
Proof.
  set (ip := digits_of_N (r / Npow10 p)).
  set (fs := fixed_digits p (r mod Npow10 p)).
  assert (Hshape : scaled_text ["."%char] p r =
            ip ++ match fs with [] => [] | _ :: _ => "."%char :: fs end).
  { unfold scaled_text. fold ip. f_equal. subst fs.
    destruct p as [| k]; [reflexivity |].
    pose proof (fixed_digits_length (S k) (r mod Npow10 (S k))) as Hlen.
    destruct (fixed_digits (S k) (r mod Npow10 (S k))); [discriminate | reflexivity]. }
  rewrite Hshape, parseFloat_fixed.
  - unfold decimal_of. subst ip fs.
    now rewrite scaled_digits_value, fixed_digits_length.
  - apply digits_of_N_all_digits.
  - apply digits_of_N_nonempty.
  - apply fixed_digits_all_digits.
Qed.

Lemma read_number (o : options) (r : N) (pre post : list ascii) :
  chars (decimal o) = dec ->
  inert (chars (thousand o)) ->
  dashes (filter kept pre) ->
  dashes (filter kept post) ->
  parse_text (text (pre ++ number_text o r ++ post)) (decimal o) =
    Num (read_back
           (Nat.odd (length (filter kept pre) + length (filter kept post)))
           r (precision o)).
Proof.
  intros Hdec Hth Hpre Hpost.
  unfold parse_text, text, chars in *.
  rewrite list_ascii_of_string_of_list_ascii.
  rewrite Hdec.
  set (d1 := filter kept pre) in *. set (d2 := filter kept post) in *.
  assert (Hclean : cleaned (pre ++ number_text o r ++ post) dec =
                   d1 ++ scaled_text ["."%char] (precision o) r ++ d2).
  { unfold cleaned.
    change (filter (keep_char dec)) with (filter kept).
    rewrite !filter_app, (filter_kept_number_text o r Hdec Hth).
    fold d1 d2. rewrite (pointed_scaled_text _ _ _ _ Hpre Hpost).
    assert (Hfree : bracket_free (d1 ++ scaled_text ["."%char] (precision o) r ++ d2)).
    { apply Forall_app. split; [now apply dashes_bracket_free |].
      apply Forall_app. split; [| now apply dashes_bracket_free].
      eapply Forall_impl; [| apply scaled_text_plain].
      apply plain_not_bracket. }
    rewrite (bracket_negatives_free _ _ Hfree). now apply drop_brackets_free. }
  rewrite Hclean. unfold count_dashes. rewrite !filter_app.
  destruct (filter_dash_dashes d1 Hpre) as [-> ->].
  destruct (filter_dash_dashes d2 Hpost) as [-> ->].
  destruct (filter_dash_plain _ (scaled_text_plain (precision o) r)) as [-> ->].
  rewrite app_nil_r. cbn [app]. rewrite length_app.
  rewrite scaled_text_parse. reflexivity.
Qed.

End Separator.

End ReadBack.

(** ** The shape of a formatted amount *)

Module MoneyShape.
Import Shape DigitFacts.

(** *** Number texts hold no pattern *)

Lemma verbatim_weaken (t : list ascii) :
  verbatim true t = true -> verbatim false t = true.
Proof.
  induction t as [| c r IH]; [reflexivity |].
  cbn [verbatim]. intros H. apply andb_true_iff in H. destruct H as [Hc Hr].
  rewrite (IH Hr), andb_true_r.
  destruct (Ascii.eqb c "$"); [| reflexivity].
  destruct r as [| d r']; [reflexivity |].
  destruct (Ascii.eqb d "$"), (Ascii.eqb d "&"), (Ascii.eqb d "`"),
    (Ascii.eqb d "'"); cbn in Hc |- *; try discriminate; reflexivity.
Qed.

Lemma verbatim_digits_app (k : bool) (x y : list ascii) :
  all_digits x -> verbatim k y = true -> verbatim k (x ++ y) = true.
Proof.
  intros Hx Hy. induction Hx as [| c x Hc _ IH]; [assumption |].
  cbn [app verbatim]. rewrite (ReadBack.digit_not_char c "$" Hc eq_refl).
  cbn [andb negb]. exact IH.
Qed.

Lemma verbatim_digits (l : list ascii) : all_digits l -> verbatim false l = true.
Proof.
  intros H. rewrite <- (app_nil_r l). now apply verbatim_digits_app.
Qed.

(** A separator may end in a dollar sign where a digit follows. *)
Lemma verbatim_app_digit (x y : list ascii) :
  verbatim false x = true -> verbatim false y = true ->
  match y with d :: _ => is_digit d = true | [] => True end ->
  verbatim false (x ++ y) = true.
Proof.
  intros Hx Hy Hd. induction x as [| c x IH]; [assumption |].
  cbn [verbatim] in Hx. apply andb_true_iff in Hx. destruct Hx as [Hc Hx].
  cbn [app verbatim]. rewrite (IH Hx), andb_true_r.
  destruct x as [| c' x']; [| exact Hc].
  cbn [app]. destruct y as [| d y']; [exact Hc |].
  rewrite (ReadBack.digit_not_char d "$" Hd eq_refl),
    (ReadBack.digit_not_char d "&" Hd eq_refl),
    (ReadBack.digit_not_char d "`" Hd eq_refl),
    (ReadBack.digit_not_char d "'" Hd eq_refl).
  cbn [andb orb]. now rewrite andb_false_r.
Qed.

Lemma all_digits_head (l : list ascii) :
  all_digits l -> match l with d :: _ => is_digit d = true | [] => True end.
Proof. intros H. destruct l; [exact I | now inversion H]. Qed.

Lemma grouped_head (sep : list ascii) (a : ascii) (l : list ascii) :
  exists t, grouped sep (a :: l) = a :: t.
Proof. destruct l as [| b [| c [| e tl]]]; eexists; reflexivity. Qed.

Lemma verbatim_grouped (sep tail : list ascii) (n : nat) :
  verbatim false sep = true -> verbatim false tail = true ->
  forall l, (length l <= n)%nat -> all_digits l ->
  verbatim false (grouped sep l ++ tail) = true.
Proof.
  intros Hsep Htail. induction n as [| n IH]; intros l Hlen Hl.
  - destruct l; [assumption | simpl in Hlen; lia].
  - destruct l as [| x1 [| x2 [| x3 [| x4 tl]]]];
      try (apply verbatim_digits_app; assumption).
    inversion Hl as [| ? ? H1 Hl1]; subst.
    inversion Hl1 as [| ? ? H2 Hl2]; subst.
    inversion Hl2 as [| ? ? H3 Hl3]; subst.
    change (grouped sep (x1 :: x2 :: x3 :: x4 :: tl) ++ tail)
      with ([x1; x2; x3] ++ sep ++ grouped sep (x4 :: tl) ++ tail)
      || (change (grouped sep (x1 :: x2 :: x3 :: x4 :: tl))
            with ([x1; x2; x3] ++ sep ++ grouped sep (x4 :: tl));
          rewrite <- !app_assoc).
    apply verbatim_digits_app; [repeat constructor; assumption |].
    apply verbatim_app_digit; [assumption | |].
    + apply IH; [simpl in Hlen |- *; lia | assumption].
    + destruct (grouped_head sep x4 tl) as [t ->].
      cbn [app]. now inversion Hl3.
Qed.

Lemma number_text_verbatim (o : Accounting.options) (r : N) :
  verbatim true (chars (Accounting.thousand o)) = true ->
  verbatim false (chars (Accounting.decimal o)) = true ->
  verbatim false (number_text o r) = true.
Proof.
  intros Hth Hdec. apply verbatim_weaken in Hth. unfold number_text.
  set (base := Accounting.digits_of_N (r / Accounting.Npow10 (Accounting.precision o))).
  set (md := if (3 <? length base)%nat then (length base mod 3)%nat else O).
  set (tail := match Accounting.precision o with
               | O => []
               | S _ => chars (Accounting.decimal o) ++
                        Accounting.fixed_digits (Accounting.precision o)
                          (r mod Accounting.Npow10 (Accounting.precision o))
               end).
  pose proof (digits_of_N_all_digits (r / Accounting.Npow10 (Accounting.precision o)))
    as Hbase.
  fold base in Hbase.
  destruct (ReadBack.all_digits_split md base Hbase) as [Hfirst Hskip].
  assert (Htail : verbatim false tail = true).
  { subst tail. destruct (Accounting.precision o) as [| k]; [reflexivity |].
    pose proof (fixed_digits_all_digits (S k) (r mod Accounting.Npow10 (S k))) as Hfs.
    apply verbatim_app_digit;
      [assumption | now apply verbatim_digits | now apply all_digits_head]. }
  pose proof (verbatim_grouped _ tail (length (skipn md base)) Hth Htail
                _ (le_n _) Hskip) as Hgrouped.
  destruct md as [| k] eqn:Emd; [exact Hgrouped |].
  rewrite <- app_assoc. apply verbatim_digits_app; [assumption |].
  apply verbatim_app_digit; [assumption | assumption |].
  assert (Hlen : (S k < length base)%nat).
  { subst md. destruct (3 <? length base)%nat eqn:E3; [| discriminate].
    apply Nat.ltb_lt in E3.
    pose proof (Nat.mod_upper_bound (length base) 3 ltac:(discriminate)). lia. }
  destruct (skipn (S k) base) as [| x rest] eqn:Eskip.
  - apply (f_equal (@length ascii)) in Eskip.
    rewrite length_skipn in Eskip. simpl in Eskip. lia.
  - destruct (grouped_head (chars (Accounting.thousand o)) x rest) as [t ->].
    cbn [app]. now inversion Hskip.
Qed.

(** *** What stands around the number text *)

Lemma dashes_of_filter (l : list ascii) :
  filter (fun x => negb (Accounting.is_dash x)) l = [] -> dashes l.
Proof.
  induction l as [| x l IH]; intros H; [constructor |].
  cbn [filter] in H. unfold Accounting.is_dash in H at 1.
  destruct (Ascii.eqb_spec x "-") as [-> | _]; cbn [negb] in H; [| discriminate].
  constructor; [reflexivity | now apply IH].
Qed.

Lemma filter_dash_free (l : list ascii) :
  Forall (fun c => Accounting.is_dash c = false) l ->
  filter (fun x => negb (Accounting.is_dash x)) l = l /\
  filter Accounting.is_dash l = [].
Proof.
  induction 1 as [| c l Hc _ [IH1 IH2]]; [now split |].
  cbn [filter]. rewrite Hc. cbn [negb]. split; [now f_equal | assumption].
Qed.

(** Minus signs around a text without any can be counted apart from
    it. *)
Lemma dash_cancel (x1 x2 y1 y2 mid : list ascii) :
  dashes y1 -> dashes y2 ->
  Forall (fun c => Accounting.is_dash c = false) mid ->
  x1 ++ mid ++ x2 = y1 ++ mid ++ y2 ->
  x1 ++ x2 = y1 ++ y2.
Proof.
  intros Hy1 Hy2 Hmid H.
  destruct (ReadBack.filter_dash_dashes y1 Hy1) as [Dy1 Ny1].
  destruct (ReadBack.filter_dash_dashes y2 Hy2) as [Dy2 Ny2].
  destruct (filter_dash_free mid Hmid) as [Nmid Dmid].
  pose proof (f_equal (filter (fun x => negb (Accounting.is_dash x))) H) as HN.
  rewrite !filter_app, Ny1, Ny2, Nmid, app_nil_r in HN. cbn [app] in HN.
  assert (Hlen := f_equal (@length ascii) HN).
  rewrite !length_app in Hlen.
  assert (N1 : filter (fun x => negb (Accounting.is_dash x)) x1 = [])
    by (destruct (filter (fun x => negb (Accounting.is_dash x)) x1);
        [reflexivity | simpl in Hlen; lia]).
  assert (N2 : filter (fun x => negb (Accounting.is_dash x)) x2 = [])
    by (destruct (filter (fun x => negb (Accounting.is_dash x)) x2);
        [reflexivity | simpl in Hlen; lia]).
  destruct (ReadBack.filter_dash_dashes x1 (dashes_of_filter x1 N1)) as [Dx1 _].
  destruct (ReadBack.filter_dash_dashes x2 (dashes_of_filter x2 N2)) as [Dx2 _].
  pose proof (f_equal (filter Accounting.is_dash) H) as HD.
  rewrite !filter_app, Dy1, Dy2, Dx1, Dx2, Dmid in HD. exact HD.
Qed.

Section Separator.

Variable d0 : ascii.
Variable ds : list ascii.
Hypothesis d0_not_digit : is_digit d0 = false.
Hypothesis d0_not_dash : Ascii.eqb d0 "-" = false.

Local Abbreviation dec := (d0 :: ds).
Local Abbreviation kept := (Shape.kept dec).
Local Abbreviation inert := (Shape.inert dec).

Hypothesis space_dropped : kept " " = false.

Lemma filter_kept_space : filter kept (chars " ") = [].
Proof. cbn [chars list_ascii_of_string filter]. now rewrite space_dropped. Qed.

Lemma value_placed (a b nt : list ascii) :
  verbatim false nt = true ->
  dashes (filter kept a) -> dashes (filter kept b) ->
  exists pre post,
    replace_first (chars "%v") nt (a ++ chars "%v" ++ b) = pre ++ nt ++ post /\
    filter kept pre ++ filter kept post = filter kept a ++ filter kept b.
Proof.
  intros Hnt Ha Hb.
  destruct (SubstitutionFacts.find_first_occurs (chars "%v") a b)
    as (pre & post & H1 & H2).
  exists pre, post. split.
  - now rewrite (SubstitutionFacts.replace_first_verbatim _ _ _ Hnt), H1.
  - apply (f_equal (filter kept)) in H2. rewrite !filter_app in H2.
    apply (dash_cancel _ _ _ _ (filter kept (chars "%v")));
      [assumption | assumption | | exact H2].
    apply Forall_forall. intros x Hx. apply filter_In in Hx.
    destruct Hx as [Hx _]. cbn in Hx.
    destruct Hx as [<- | [<- | []]]; reflexivity.
Qed.

Lemma negative_or_not (q : Q) :
  Qle_bool 0 q = false -> Qle_bool q 0 = true.
Proof.
  intros H. apply Qle_bool_iff. apply Qlt_le_weak, Qnot_le_lt.
  intros Hle. apply Qle_bool_iff in Hle. congruence.
Qed.

Lemma placed_of (nt s1 a b da db : list ascii) :
  verbatim false nt = true ->
  s1 = a ++ chars "%v" ++ b ->
  filter kept a = da -> filter kept b = db ->
  dashes da -> dashes db ->
  exists pre post,
    text (replace_first (chars "%v") nt s1) = text (pre ++ nt ++ post) /\
    filter kept pre ++ filter kept post = da ++ db.
Proof.
  intros Hnt -> Ha Hb Hda Hdb.
  rewrite <- Ha in Hda. rewrite <- Hb in Hdb.
  destruct (value_placed a b nt Hnt Hda Hdb) as (pre & post & H1 & H2).
  exists pre, post. split; [now f_equal | now rewrite H2, Ha, Hb].
Qed.

Lemma formatMoney_shape (p : props) (q : Q) :
  inert (chars (currency p)) ->
  verbatim false (chars (currency p)) = true ->
  verbatim true (chars (thousandSeparatorSymbol p)) = true ->
  verbatim false (chars (decimalSeparatorSymbol p)) = true ->
  exists pre post,
    Accounting.formatMoney (Num q) (money_options p) =
      text (pre ++
            number_text (money_options p)
              (Z.to_N (Accounting.round_scaled (Qabs q) (precision p))) ++
            post) /\
    filter kept pre ++ filter kept post =
      if negb (Qle_bool 0 q) then ["-"%char] else [].
Proof.
  intros Hsym Hsymv Hthv Hdecv.
  unfold Accounting.formatMoney. rewrite ReadBack.formatNumber_abs.
  rewrite (ReadBack.formatted_number_text (money_options p) _ Hthv).
  cbn [Accounting.precision Accounting.symbol Accounting.format money_options].
  pose proof (number_text_verbatim (money_options p)
                (Z.to_N (Accounting.round_scaled (Qabs q) (precision p)))
                Hthv Hdecv) as Hnt.
  set (nt := number_text (money_options p)
               (Z.to_N (Accounting.round_scaled (Qabs q) (precision p)))) in *.
  unfold num_gt, num_lt.
  assert (Hsymf := ReadBack.filter_kept_inert d0 ds _ Hsym).
  pose proof filter_kept_space as Hsp.
  rewrite !(SubstitutionFacts.replace_first_verbatim (chars "%s") _ _ Hsymv).
  set (sym := chars (currency p)) in *.
  assert (Hfmt :
    chars (symbolPosition p) = chars "%v" \/
    chars (symbolPosition p) = chars "%v %s" \/
    chars (symbolPosition p) = chars "%s %v").
  { unfold symbolPosition.
    destruct (negb (truthy_string (currency p))); [now left |].
    destruct (String.eqb (currencySymbolPosition p) "suffix"); auto. }
  destruct (Qle_bool 0 q) eqn:Hq; cbn [negb].
  - (* the positive and the zero format *)
    assert (Huse : (if negb (Qle_bool q 0)
                    then chars (symbolPosition p) else chars (symbolPosition p))
                   = chars (symbolPosition p))
      by (destruct (negb (Qle_bool q 0)); reflexivity).
    rewrite Huse. clear Huse.
    destruct Hfmt as [-> | [-> | ->]].
    + apply (placed_of nt _ [] [] [] [] Hnt); try reflexivity; constructor.
    + apply (placed_of nt _ [] (chars " " ++ sym) [] [] Hnt);
        try reflexivity; try constructor.
      * cbn. now rewrite app_nil_r.
      * now rewrite filter_app, Hsp, Hsymf.
    + apply (placed_of nt _ (sym ++ chars " ") [] [] [] Hnt);
        try reflexivity; try constructor.
      * cbn. now rewrite <- app_assoc.
      * now rewrite filter_app, Hsp, Hsymf.
  - (* the negative format *)
    rewrite (negative_or_not q Hq). cbn [negb].
    destruct Hfmt as [-> | [-> | ->]].
    + apply (placed_of nt _ ["-"%char] [] ["-"%char] [] Hnt);
        try reflexivity; repeat constructor.
    + apply (placed_of nt _ ["-"%char] (chars " " ++ sym) ["-"%char] [] Hnt);
        try reflexivity; repeat constructor.
      * cbn. now rewrite app_nil_r.
      * now rewrite filter_app, Hsp, Hsymf.
    + apply (placed_of nt _ (sym ++ chars " " ++ ["-"%char]) [] ["-"%char] [] Hnt);
        try reflexivity; repeat constructor.
      * cbn. now rewrite <- app_assoc.
      * rewrite !filter_app, Hsp, Hsymf. reflexivity.
Qed.

(** ** Unformatting a formatted amount *)

Lemma dashes_of_app (d1 d2 : list ascii) (b : bool) :
  d1 ++ d2 = (if b then ["-"%char] else []) ->
  Shape.dashes d1 /\ Shape.dashes d2 /\
  Nat.odd (length d1 + length d2) = b.
Proof.
  intros H. assert (Hlen := f_equal (@length ascii) H).
  rewrite length_app in Hlen.
  assert (Hd : Shape.dashes (d1 ++ d2)).
  { rewrite H. destruct b; repeat constructor. }
  apply Forall_app in Hd. destruct Hd as [H1 H2].
  split; [assumption | split; [assumption |]].
  rewrite Hlen. now destruct b.
Qed.

Lemma unformat_formatted (p : props) (q : Q) :
  chars (decimalSeparatorSymbol p) = dec ->
  inert (chars (thousandSeparatorSymbol p)) ->
  inert (chars (currency p)) ->
  verbatim false (chars (currency p)) = true ->
  verbatim true (chars (thousandSeparatorSymbol p)) = true ->
  verbatim false (chars (decimalSeparatorSymbol p)) = true ->
  unformat p (VStr (Accounting.formatMoney (Num q) (money_options p))) =
    Num (Shape.read_back (negative q) (scaled q (precision p)) (precision p)).
Proof.
  intros Hdec Hth Hsym Hsymv Hthv Hdecv.
  destruct (formatMoney_shape p q Hsym Hsymv Hthv Hdecv)
    as (pre & post & Hshape & Hdash).
  apply dashes_of_app in Hdash. destruct Hdash as (Hd1 & Hd2 & Hodd).
  assert (Hdec' : chars (Accounting.decimal (money_options p)) = dec)
    by (cbn [Accounting.decimal money_options]; exact Hdec).
  pose proof (ReadBack.read_number d0 ds d0_not_digit d0_not_dash (money_options p)
                (scaled q (precision p)) pre post Hdec' Hth Hd1 Hd2) as Hread.
  rewrite Hodd in Hread. rewrite Hshape. fold (scaled q (precision p)).
  unfold unformat.
  destruct (text (pre ++ number_text (money_options p) (scaled q (precision p)) ++ post))
    as [| a s'] eqn:Htext.
  - exfalso.
    apply (f_equal chars) in Htext. unfold chars, text in Htext.
    rewrite list_ascii_of_string_of_list_ascii in Htext.
    change (list_ascii_of_string "") with (@nil ascii) in Htext.
    apply app_eq_nil in Htext. destruct Htext as [_ Htext].
    apply app_eq_nil in Htext. destruct Htext as [Htext _].
    apply (f_equal (filter kept)) in Htext.
    rewrite (ReadBack.filter_kept_number_text d0 ds _ _ Hdec' Hth) in Htext.
    change (filter kept []) with (@nil ascii) in Htext.
    unfold Shape.scaled_text in Htext.
    apply app_eq_nil in Htext. destruct Htext as [Htext _].
    now apply digits_of_N_nonempty in Htext.
  - cbn [Accounting.unformat]. cbn [Accounting.decimal money_options] in Hread.
    exact Hread.
Qed.

Lemma formatMoney_money_text (o : Accounting.options) (q : Q) :
  Accounting.formatMoney (Num q) o =
    money_text o (negative q) (scaled q (Accounting.precision o)).
Proof.
  unfold Accounting.formatMoney, money_text, negative, scaled.
  rewrite ReadBack.formatNumber_abs. unfold num_gt, num_lt.
  destruct (Qle_bool 0 q) eqn:Hq; cbn [negb].
  - now destruct (negb (Qle_bool q 0)).
  - now rewrite (negative_or_not q Hq).
Qed.

Lemma negative_compat (q1 q2 : Q) : (q1 == q2)%Q -> negative q1 = negative q2.
Proof.
  intros H. unfold negative. f_equal.
  apply eq_true_iff_eq. rewrite !Qle_bool_iff. now rewrite H.
Qed.

Lemma scaled_compat (q1 q2 : Q) (p : nat) :
  (q1 == q2)%Q -> scaled q1 p = scaled q2 p.
Proof.
  intros H. unfold scaled. f_equal.
  apply RoundFacts.round_scaled_compat. now rewrite H.
Qed.

Lemma negative_false (q : Q) : negative q = false <-> (0 <= q)%Q.
Proof.
  unfold negative. rewrite negb_false_iff. apply Qle_bool_iff.
Qed.

Lemma negative_true (q : Q) : negative q = true <-> (q < 0)%Q.
Proof.
  unfold negative. rewrite negb_true_iff. split.
  - intros H. apply Qnot_le_lt. intros Hle.
    apply Qle_bool_iff in Hle. congruence.
  - intros H. destruct (Qle_bool 0 q) eqn:E; [| reflexivity].
    apply Qle_bool_iff in E. exfalso. exact (Qlt_not_le _ _ H E).
Qed.

Lemma Qabs_read_back (neg : bool) (r : N) (p : nat) :
  Qabs (Shape.read_back neg r p) = Z.of_N r # pow10 p.
Proof.
  unfold Shape.read_back.
  destruct neg; unfold Qabs, Qopp; cbn [Qnum Qden];
    rewrite ?Z.abs_opp, Z.abs_eq; try reflexivity; apply N2Z.is_nonneg.
Qed.

(** Up to seven decimals, what was read back is scaled and rounded to
    what was printed. *)
Lemma scaled_read_back (neg : bool) (r : N) (p : nat) :
  (p <= 7)%nat -> scaled (Shape.read_back neg r p) p = r.
Proof.
  intros Hp. unfold scaled.
  rewrite Qabs_read_back, (RoundFacts.round_scaled_exact _ _ Hp). apply N2Z.id.
Qed.

Lemma negative_read_back (neg : bool) (r : N) (p : nat) :
  (neg = true -> r <> 0%N) ->
  negative (Shape.read_back neg r p) = neg.
Proof.
  intros Hr. unfold Shape.read_back. destruct neg.
  - apply negative_true. unfold Qlt, Qopp. cbn [Qnum Qden].
    specialize (Hr eq_refl). lia.
  - apply negative_false. unfold Qle. cbn [Qnum Qden]. lia.
Qed.

(** Rounding is monotone on each side of zero, so an amount between
    [q] and what is read back from its formatted text formats like
    [q]. *)
Lemma scaled_monotone (a b : Q) (p : nat) :
  (Qabs a <= Qabs b)%Q -> (scaled a p <= scaled b p)%N.
Proof.
  intros H. unfold scaled.
  apply (RoundFacts.round_scaled_le _ _ p) in H.
  pose proof (RoundFacts.round_scaled_nonneg (Qabs a) p (Qabs_nonneg a)).
  lia.
Qed.

Lemma formats_alike (q m : Q) (p : nat) :
  let y := Shape.read_back (negative q) (scaled q p) p in
  (p <= 7)%nat ->
  (negative q = true -> scaled q p <> 0%N) ->
  ((q <= m)%Q /\ (m <= y)%Q) \/ ((y <= m)%Q /\ (m <= q)%Q) ->
  negative m = negative q /\ scaled m p = scaled q p.
Proof.
  intros y Hp Hz Hbetween.
  pose proof (negative_read_back (negative q) (scaled q p) p Hz) as Hyneg.
  pose proof (scaled_read_back (negative q) (scaled q p) p Hp) as Hyr.
  fold y in Hyneg, Hyr.
  destruct (negative q) eqn:Hq.
  - apply negative_true in Hq. apply negative_true in Hyneg.
    assert (Hm : (m < 0)%Q).
    { destruct Hbetween as [[_ H] | [_ H]].
      - now apply (Qle_lt_trans _ y).
      - now apply (Qle_lt_trans _ q). }
    split; [now apply negative_true |].
    assert (Habs : forall x, (x < 0)%Q -> (Qabs x == - x)%Q)
      by (intros x Hx; apply Qabs_neg; now apply Qlt_le_weak).
    apply N.le_antisymm.
    + destruct Hbetween as [[H1 _] | [H1 _]].
      * apply scaled_monotone. rewrite (Habs m Hm), (Habs q Hq).
        now apply Qopp_le_compat.
      * rewrite <- Hyr. apply scaled_monotone.
        rewrite (Habs m Hm), (Habs y Hyneg). now apply Qopp_le_compat.
    + destruct Hbetween as [[_ H2] | [_ H2]].
      * rewrite <- Hyr. apply scaled_monotone.
        rewrite (Habs m Hm), (Habs y Hyneg). now apply Qopp_le_compat.
      * apply scaled_monotone. rewrite (Habs m Hm), (Habs q Hq).
        now apply Qopp_le_compat.
  - apply negative_false in Hq. apply negative_false in Hyneg.
    assert (Hm : (0 <= m)%Q).
    { destruct Hbetween as [[H _] | [H _]].
      - now apply (Qle_trans _ q).
      - now apply (Qle_trans _ y). }
    split; [now apply negative_false |].
    apply N.le_antisymm.
    + destruct Hbetween as [[_ H2] | [_ H2]].
      * rewrite <- Hyr. apply scaled_monotone.
        now rewrite (Qabs_pos m Hm), (Qabs_pos y Hyneg).
      * apply scaled_monotone. now rewrite (Qabs_pos m Hm), (Qabs_pos q Hq).
    + destruct Hbetween as [[H1 _] | [H1 _]].
      * apply scaled_monotone. now rewrite (Qabs_pos m Hm), (Qabs_pos q Hq).
      * rewrite <- Hyr. apply scaled_monotone.
        now rewrite (Qabs_pos m Hm), (Qabs_pos y Hyneg).
Qed.

(** ** Formatting what was read back *)

Section RoundTrip.

Variable p : props.
Variable q : Q.

Hypothesis low_precision : (precision p <= 7)%nat.
Hypothesis decimal_is : chars (decimalSeparatorSymbol p) = dec.
Hypothesis thousand_inert : inert (chars (thousandSeparatorSymbol p)).
Hypothesis currency_inert : inert (chars (currency p)).
Hypothesis currency_verbatim : verbatim false (chars (currency p)) = true.
Hypothesis thousand_verbatim :
  verbatim true (chars (thousandSeparatorSymbol p)) = true.
Hypothesis decimal_verbatim :
  verbatim false (chars (decimalSeparatorSymbol p)) = true.
Hypothesis not_negative_zero :
  negative q = true -> scaled q (precision p) <> 0%N.

Local Abbreviation y := (read_value q (precision p)).

Lemma format_read_back :
  Accounting.formatMoney (Num y) (money_options p) =
  Accounting.formatMoney (Num q) (money_options p).
Proof.
  rewrite !formatMoney_money_text. cbn [Accounting.precision money_options].
  unfold read_value.
  now rewrite negative_read_back, (scaled_read_back _ _ _ low_precision).
Qed.

Lemma roundtrip_vue :
  VueNumeric.format p (unformat p (VStr (VueNumeric.format p (Num q)))) =
  VueNumeric.format p (Num q).
Proof.
  unfold VueNumeric.format.
  rewrite (unformat_formatted p q decimal_is thousand_inert currency_inert
             currency_verbatim thousand_verbatim decimal_verbatim).
  apply format_read_back.
Qed.

Hypothesis above_min : num_le (min p) (Num q) = true.
Hypothesis below_max : num_le (Num q) (max p) = true.
Hypothesis sign_allowed : minus p = false -> (0 <= q)%Q.

Lemma sign_check_off (m : Q) :
  negative m = negative q ->
  negb (minus p) && js_lt (VNum (Num m)) (Num 0%Q) = false.
Proof.
  intros Hm. destruct (minus p) eqn:Hminus; [reflexivity |].
  cbn [negb andb]. unfold js_lt, num_lt. cbn [to_number ext_lt num_lt].
  fold (negative m). rewrite Hm. now apply negative_false, sign_allowed.
Qed.

(** Clamping an amount in range keeps its formatted text. *)
Lemma clamp_in_range :
  exists q1, clamp p (VNum (Num q)) (Num q) = Num q1 /\ (q1 == q)%Q.
Proof.
  unfold clamp. rewrite (sign_check_off q eq_refl).
  unfold js_ge, js_le in *. cbn [to_number ext_ge ext_le].
  unfold num_ge, num_le in *.
  destruct (min p) as [| lo]; [discriminate |].
  destruct (max p) as [| hi]; [discriminate |].
  apply Qle_bool_iff in above_min, below_max.
  destruct (Qle_bool q lo) eqn:Hlo.
  - exists lo. split; [reflexivity |].
    apply Qle_bool_iff in Hlo. now apply Qle_antisym.
  - destruct (Qle_bool hi q) eqn:Hhi.
    + exists hi. split; [reflexivity |].
      apply Qle_bool_iff in Hhi. now apply Qle_antisym.
    + exists q. split; reflexivity.
Qed.

(** Clamping what was read back gives an amount that formats alike. *)
Lemma clamp_read_back :
  exists m, clamp p (VNum (Num y)) (Num y) = Num m /\
            negative m = negative q /\
            scaled m (precision p) = scaled q (precision p).
Proof.
  assert (Hy : negative y = negative q /\
               scaled y (precision p) = scaled q (precision p)).
  { unfold read_value.
    now rewrite negative_read_back, (scaled_read_back _ _ _ low_precision). }
  unfold clamp. rewrite (sign_check_off y (proj1 Hy)).
  unfold js_ge, js_le in *. cbn [to_number ext_ge ext_le].
  unfold num_ge, num_le in *.
  destruct (min p) as [| lo]; [discriminate |].
  destruct (max p) as [| hi]; [discriminate |].
  apply Qle_bool_iff in above_min, below_max.
  destruct (Qle_bool y lo) eqn:Hlo.
  - exists lo. split; [reflexivity |].
    apply Qle_bool_iff in Hlo.
    apply (formats_alike q lo (precision p) low_precision not_negative_zero).
    right. now split.
  - destruct (Qle_bool hi y) eqn:Hhi.
    + exists hi. split; [reflexivity |].
      apply Qle_bool_iff in Hhi.
      apply (formats_alike q hi (precision p) low_precision not_negative_zero).
      left. now split.
    + exists y. split; [reflexivity | exact Hy].
Qed.

Lemma roundtrip_part000 :
  Part000.format p (VNum (unformat p (Part000.format p (VNum (Num q))))) =
  Part000.format p (VNum (Num q)).
Proof.
  unfold Part000.format. rewrite !unformat_number.
  destruct clamp_in_range as (q1 & -> & Hq1).
  rewrite (unformat_formatted p q1 decimal_is thousand_inert currency_inert
             currency_verbatim thousand_verbatim decimal_verbatim).
  rewrite (negative_compat q1 q Hq1), (scaled_compat q1 q _ Hq1).
  fold (read_value q (precision p)).
  rewrite unformat_number.
  destruct clamp_read_back as (m & -> & Hneg & Hsc).
  f_equal. rewrite !formatMoney_money_text.
  cbn [Accounting.precision money_options].
  now rewrite Hneg, Hsc, (negative_compat q1 q Hq1), (scaled_compat q1 q _ Hq1).
Qed.

End RoundTrip.

End Separator.

End MoneyShape.

(** ** Configuration resolver *)

Local Open Scope string_scope.

Section Resolver.

Variable p : props.

Lemma decimal_override (d : string) :
  decimalSeparator p = Some d -> decimalSeparatorSymbol p = d.
Proof. unfold decimalSeparatorSymbol. now intros ->. Qed.

Lemma thousand_override (t : string) :
  thousandSeparator p = Some t -> thousandSeparatorSymbol p = t.
Proof. unfold thousandSeparatorSymbol. now intros ->. Qed.

Lemma decimal_shorthand :
  decimalSeparator p = None ->
  decimalSeparatorSymbol p = if String.eqb (separator p) "," then "." else ",".
Proof. unfold decimalSeparatorSymbol. now intros ->. Qed.

Lemma thousand_shorthand :
  thousandSeparator p = None ->
  thousandSeparatorSymbol p =
    if String.eqb (separator p) "." then "."
    else if String.eqb (separator p) "space" then " " else ",".
Proof. unfold thousandSeparatorSymbol. now intros ->. Qed.

End Resolver.

(** C7. The resolved decimal separator is the [decimalSeparator]
    override when there is one, else "." for the shorthand "," and ","
    for any other; the resolved thousand separator is the
    [thousandSeparator] override when there is one, else "." for the
    shorthand ".", a single space for "space", and "," otherwise. *)
Theorem resolver_rules (p : props) :
  (forall d, decimalSeparator p = Some d -> decimalSeparatorSymbol p = d) /\
  (decimalSeparator p = None -> separator p = "," ->
   decimalSeparatorSymbol p = ".") /\
  (decimalSeparator p = None -> separator p <> "," ->
   decimalSeparatorSymbol p = ",") /\
  (forall t, thousandSeparator p = Some t -> thousandSeparatorSymbol p = t) /\
  (thousandSeparator p = None -> separator p = "." ->
   thousandSeparatorSymbol p = ".") /\
  (thousandSeparator p = None -> separator p = "space" ->
   thousandSeparatorSymbol p = " ") /\
  (thousandSeparator p = None -> separator p <> "." -> separator p <> "space" ->
   thousandSeparatorSymbol p = ",").
Proof.
  split; [| split; [| split; [| split; [| split; [| split]]]]].
  - apply decimal_override.
  - intros Hd Hs. rewrite (decimal_shorthand p Hd), Hs. reflexivity.
  - intros Hd Hs. rewrite (decimal_shorthand p Hd).
    destruct (String.eqb_spec (separator p) ","); [contradiction | reflexivity].
  - apply thousand_override.
  - intros Ht Hs. rewrite (thousand_shorthand p Ht), Hs. reflexivity.
  - intros Ht Hs. rewrite (thousand_shorthand p Ht), Hs. reflexivity.
  - intros Ht Hs1 Hs2. rewrite (thousand_shorthand p Ht).
    destruct (String.eqb_spec (separator p) "."); [contradiction |].
    destruct (String.eqb_spec (separator p) "space"); [contradiction | reflexivity].
Qed.

Lemma resolver_rules_witness :
  decimalSeparatorSymbol (with_separators "." (Some "'") None) = "'" /\
  decimalSeparatorSymbol (with_separators "," None None) = "." /\
  decimalSeparatorSymbol (with_separators "space" None None) = "," /\
  thousandSeparatorSymbol (with_separators "space" None (Some "'")) = "'" /\
  thousandSeparatorSymbol (with_separators "." None None) = "." /\
  thousandSeparatorSymbol (with_separators "space" None None) = " " /\
  thousandSeparatorSymbol (with_separators "," None None) = ",".
Proof.
  split; [| split; [| split; [| split; [| split; [| split]]]]].
  - destruct (resolver_rules (with_separators "." (Some "'") None)) as (H & _).
    apply H. reflexivity.
  - destruct (resolver_rules (with_separators "," None None)) as (_ & H & _).
    apply H; reflexivity.
  - destruct (resolver_rules (with_separators "space" None None)) as (_ & _ & H & _).
    apply H; [reflexivity | discriminate].
  - destruct (resolver_rules (with_separators "space" None (Some "'")))
      as (_ & _ & _ & H & _).
    apply H. reflexivity.
  - destruct (resolver_rules (with_separators "." None None))
      as (_ & _ & _ & _ & H & _).
    apply H; reflexivity.
  - destruct (resolver_rules (with_separators "space" None None))
      as (_ & _ & _ & _ & _ & H & _).
    apply H; reflexivity.
  - destruct (resolver_rules (with_separators "," None None))
      as (_ & _ & _ & _ & _ & _ & H).
    apply H; [reflexivity | discriminate | discriminate].
Defined.

(** The shorthand is not checked: an unknown one resolves both
    separators to ",", and an override may repeat the other
    separator. *)
Lemma separators_may_coincide :
  decimalSeparatorSymbol (with_separators ";" None None) =
  thousandSeparatorSymbol (with_separators ";" None None) /\
  decimalSeparatorSymbol (with_separators "," (Some ",") None) =
  thousandSeparatorSymbol (with_separators "," (Some ",") None).
Proof. split; reflexivity. Qed.

(** C8, as amended.  Without overrides the resolved decimal and
    thousand separators are distinct exactly when the shorthand is ",",
    "." or "space". *)
Theorem separators_distinct_iff (p : props) :
  decimalSeparator p = None ->
  thousandSeparator p = None ->
  (decimalSeparatorSymbol p <> thousandSeparatorSymbol p <->
   separator p = "," \/ separator p = "." \/ separator p = "space").
Proof.
  intros Hd Ht.
  rewrite (decimal_shorthand p Hd), (thousand_shorthand p Ht).
  destruct (String.eqb_spec (separator p) ",") as [-> | Hc].
  - simpl. split; [auto | discriminate].
  - destruct (String.eqb_spec (separator p) ".") as [-> | Hp].
    + split; [auto | discriminate].
    + destruct (String.eqb_spec (separator p) "space") as [-> | Hs].
      * split; [auto | discriminate].
      * split; [congruence | intros [? | [? | ?]]; contradiction].
Qed.

Lemma separators_distinct_iff_witness :
  decimalSeparatorSymbol (with_separators "space" None None) <>
  thousandSeparatorSymbol (with_separators "space" None None).
Proof.
  apply (separators_distinct_iff (with_separators "space" None None));
    [reflexivity | reflexivity | right; right; reflexivity].
Defined.

(** ** Clamping *)

(** C1. The checks run in the order max, min, sign and each overwrites
    the running result, so the last check that fires decides: the sign
    check (giving [min] when [min >= 0] and 0 otherwise), else the [min]
    check, else the [max] check, else the running result [r] is kept.
    [process] and part_000's [format] render this result, the running
    result being the unformatted [v].  With min=0, max=100, minus=false,
    -5 gives 0 and 150 gives 100; with min=10, -5 gives 10. *)
Theorem clamp_order (p : props) (n r : number) :
  clamp p (VNum n) r =
    (if negb (minus p) && num_lt n (Num 0%Q)
     then (if num_ge (min p) (Num 0%Q) then min p else Num 0%Q)
     else if num_le n (min p) then min p
     else if num_ge n (max p) then max p
     else r) /\
  VueNumeric.process p (VNum n) =
    VueNumeric.format p (clamp p (VNum n) (unformat p (VNum n))) /\
  Part000.format p (VNum n) =
    VStr (Accounting.formatMoney (clamp p (VNum n) (unformat p (VNum n)))
            (money_options p)) /\
  clamp (with_bounds 0 100 false) (VNum (Num (-5 # 1))) r = Num 0%Q /\
  clamp (with_bounds 0 100 false) (VNum (Num (150 # 1))) r = Num (100 # 1) /\
  clamp (with_bounds 10 100 false) (VNum (Num (-5 # 1))) r = Num (10 # 1).
Proof.
  split; [| split; [| split; [| split; [| split]]]]; reflexivity.
Qed.

(** ** Lenient parse *)

Lemma unformat_empty (p : props) :
  unformat p (VStr "") = Accounting.unformat (emptyValue p) (decimalSeparatorSymbol p).
Proof. reflexivity. Qed.

Lemma unformat_nonempty (p : props) (s : string) :
  s <> "" ->
  unformat p (VStr s) = Accounting.unformat (VStr s) (decimalSeparatorSymbol p).
Proof. intros Hs. destruct s; [contradiction | reflexivity]. Qed.

Lemma parse_text_number (s decimal : string) :
  exists q, Accounting.parse_text s decimal = Num q.
Proof.
  unfold Accounting.parse_text.
  destruct (parseFloat _) as [| q]; eexists; reflexivity.
Qed.

(** The library gives [NaN] for the number [NaN] only. *)
Lemma accounting_unformat_NaN (v : val) (decimal : string) :
  Accounting.unformat v decimal = NaN <-> v = VNum NaN.
Proof.
  split; [| now intros ->].
  destruct v as [| | n | s]; cbn [Accounting.unformat]; intros H.
  - destruct (parse_text_number "undefined" decimal) as [q Hq]. congruence.
  - destruct (parse_text_number "null" decimal) as [q Hq]. congruence.
  - now subst n.
  - destruct (parse_text_number s decimal) as [q Hq]. congruence.
Qed.

Lemma unformat_text_number (p : props) (s : string) :
  s <> "" -> exists q, unformat p (VStr s) = Num q.
Proof.
  intros Hs. rewrite (unformat_nonempty p s Hs). apply parse_text_number.
Qed.

Lemma truthy_is_number (n : number) :
  truthy_number n = true -> exists q, n = Num q.
Proof. destruct n as [| q]; [discriminate | now exists q]. Qed.




(** ** Synchronisation: blur *)

Lemma length_nonempty (s : string) :
  s <> "" -> negb (Nat.eqb (String.length s) 0) = true.
Proof. destruct s; [contradiction | reflexivity]. Qed.

(** In vue-numeric.vue a zero entry leaves the bare number 0 in the
    display, whatever the symbol and precision; in part_000 the zero
    goes through the clamp of [format], so with [min = 10] the display
    reads 10. *)
Lemma blur_zero_not_formatted_zero :
  run (VueNumeric.onBlurHandler (with_money "$" 2 (-100) 100) {| target_value := "abc" |})
      {| amount := VStr "abc" |} =
    Some ({| amount := VNum (Num 0%Q) |},
          [Blur {| target_value := "abc" |}; Input (VNum (Num 0%Q))]) /\
  VueNumeric.format (with_money "$" 2 (-100) 100) (Num 0%Q) = "$ 0.00" /\
  run (Part000.onBlurHandler (with_money "" 0 10 100) {| target_value := "abc" |})
      {| amount := VStr "abc" |} =
    Some ({| amount := VStr "10" |},
          [Blur {| target_value := "abc" |}; Input (VNum (Num 0%Q))]) /\
  Accounting.formatMoney (Num 0%Q) (money_options (with_money "" 0 10 100)) = "0".
Proof. repeat split. Qed.

(** C2, as amended.  On blur with a non-empty display text that
    unformats to a falsy number, both files emit the canonical value 0;
    part_000 sets the display to [format(0)], the rendering of 0 clamped
    to the bounds, which is 0 itself when [min < 0 < max]. *)
Theorem blur_zero_entry (p : props) (evt : dom_event) (s : string) :
  s <> "" ->
  truthy_number (unformat p (VStr s)) = false ->
  (target_value evt = s ->
   option_map snd (run (VueNumeric.onBlurHandler p evt) {| amount := VStr s |}) =
     Some [Blur evt; Input (VNum (Num 0%Q))]) /\
  run (Part000.onBlurHandler p evt) {| amount := VStr s |} =
    Some ({| amount := Part000.format p (VNum (Num 0%Q)) |},
          [Blur evt; Input (VNum (Num 0%Q))]) /\
  Part000.format p (VNum (Num 0%Q)) =
    VStr (Accounting.formatMoney (clamp p (VNum (Num 0%Q)) (Num 0%Q))
            (money_options p)) /\
  (num_lt (min p) (Num 0%Q) = true -> num_lt (Num 0%Q) (max p) = true ->
   clamp p (VNum (Num 0%Q)) (Num 0%Q) = Num 0%Q).
Proof.
  intros Hs Hz. split; [| split; [| split]].
  - intros Ht. run_handler. rewrite Ht, (length_nonempty s Hs), Hz. reflexivity.
  - run_handler. rewrite Hz. cbn [negb]. rewrite (length_nonempty s Hs).
    reflexivity.
  - reflexivity.
  - intros Hlo Hhi. unfold clamp, js_ge, js_le, js_lt. cbn [to_number].
    destruct (min p) as [| lo]; [discriminate |].
    destruct (max p) as [| hi]; [discriminate |].
    cbn in Hlo, Hhi |- *.
    apply negb_true_iff in Hlo, Hhi. rewrite Hlo, Hhi.
    now rewrite andb_false_r.
Qed.

Lemma blur_zero_entry_witness :
  option_map snd
    (run (VueNumeric.onBlurHandler (with_money "$" 2 (-100) 100) {| target_value := "abc" |})
       {| amount := VStr "abc" |}) =
    Some [Blur {| target_value := "abc" |}; Input (VNum (Num 0%Q))] /\
  run (Part000.onBlurHandler (with_money "$" 2 (-100) 100) {| target_value := "abc" |})
      {| amount := VStr "abc" |} =
    Some ({| amount := Part000.format (with_money "$" 2 (-100) 100) (VNum (Num 0%Q)) |},
          [Blur {| target_value := "abc" |}; Input (VNum (Num 0%Q))]) /\
  clamp (with_money "$" 2 (-100) 100) (VNum (Num 0%Q)) (Num 0%Q) = Num 0%Q.
Proof.
  assert (Hs : "abc" <> "") by discriminate.
  destruct (blur_zero_entry (with_money "$" 2 (-100) 100)
              {| target_value := "abc" |} "abc" Hs eq_refl)
    as (Hvue & Hpart & _ & Hclamp).
  split; [| split].
  - apply Hvue. reflexivity.
  - exact Hpart.
  - apply Hclamp; reflexivity.
Defined.

(** With [emptyValue = 0] an empty display commits the empty string,
    not 0; and in vue-numeric.vue a truthy [emptyValue] is left in the
    display. *)
Lemma blur_empty_not_emptyValue :
  run (Part000.onBlurHandler (with_emptyValue (VNum (Num 0%Q))) {| target_value := "" |})
      {| amount := VStr "" |} =
    Some ({| amount := VStr "" |}, [Blur {| target_value := "" |}; Input (VStr "")]) /\
  run (VueNumeric.onBlurHandler (with_emptyValue (VNum (Num 0%Q))) {| target_value := "" |})
      {| amount := VStr "" |} =
    Some ({| amount := VStr "" |}, [Blur {| target_value := "" |}; Input (VStr "")]) /\
  run (VueNumeric.onBlurHandler (with_emptyValue (VNum (Num (5 # 1)))) {| target_value := "" |})
      {| amount := VStr "" |} =
    Some ({| amount := VStr "5" |},
          [Blur {| target_value := "" |}; Input (VNum (Num (5 # 1)))]).
Proof. repeat split. Qed.

(** C3, as amended.  On blur with an empty display text, part_000
    leaves the display empty and emits the empty string when
    [emptyValue] unformats to a falsy number (as the default [''] and
    every text without digits do), and otherwise the unformatted
    [emptyValue] in the configured output type; vue-numeric.vue shows
    [process('')] and commits that text: when it unformats to a falsy
    number the display is emptied and the empty string is emitted. *)
Theorem blur_empty_display (p : props) (evt : dom_event) :
  run (Part000.onBlurHandler p evt) {| amount := VStr "" |} =
    Some ({| amount := VStr "" |},
          [Blur evt;
           Input (if truthy_number (unformat p (VStr ""))
                  then output p (unformat p (VStr ""))
                  else VStr "")]) /\
  unformat p (VStr "") =
    Accounting.unformat (emptyValue p) (decimalSeparatorSymbol p) /\
  (forall e, emptyValue p = VStr e -> Shape.digit_free (chars e) ->
   run (Part000.onBlurHandler p evt) {| amount := VStr "" |} =
     Some ({| amount := VStr "" |}, [Blur evt; Input (VStr "")])) /\
  (target_value evt = "" ->
   run (VueNumeric.onBlurHandler p evt) {| amount := VStr "" |} =
     let shown := VStr (VueNumeric.process p (VStr "")) in
     if truthy_number (unformat p shown)
     then Some ({| amount := shown |}, [Blur evt; Input (output p (unformat p shown))])
     else Some ({| amount := VStr "" |}, [Blur evt; Input (VStr "")])).
Proof.
  assert (Hpart :
    run (Part000.onBlurHandler p evt) {| amount := VStr "" |} =
    Some ({| amount := VStr "" |},
          [Blur evt;
           Input (if truthy_number (unformat p (VStr ""))
                  then output p (unformat p (VStr ""))
                  else VStr "")])).
  { run_handler. destruct (truthy_number (unformat p (VStr ""))); reflexivity. }
  split; [exact Hpart | split; [reflexivity | split]].
  - intros e He Hd. rewrite Hpart.
    rewrite unformat_empty, He. cbn [Accounting.unformat].
    now rewrite ParseFacts.parse_text_digit_free.
  - intros Ht. run_handler. rewrite Ht. cbn [String.length Nat.eqb negb andb].
    destruct (truthy_number (unformat p (VStr (VueNumeric.process p (VStr "")))));
      reflexivity.
Qed.

Lemma blur_empty_display_witness :
  run (Part000.onBlurHandler (with_emptyValue (VStr "n/a")) {| target_value := "" |})
      {| amount := VStr "" |} =
    Some ({| amount := VStr "" |}, [Blur {| target_value := "" |}; Input (VStr "")]) /\
  run (VueNumeric.onBlurHandler (with_emptyValue (VStr "")) {| target_value := "" |})
      {| amount := VStr "" |} =
    Some ({| amount := VStr "" |}, [Blur {| target_value := "" |}; Input (VStr "")]).
Proof.
  split.
  - apply (proj1 (proj2 (proj2
      (blur_empty_display (with_emptyValue (VStr "n/a")) {| target_value := "" |}))) "n/a").
    + reflexivity.
    + repeat constructor.
  - apply (proj2 (proj2 (proj2
      (blur_empty_display (with_emptyValue (VStr "")) {| target_value := "" |})))).
    reflexivity.
Defined.

(** With [outputType = "String"] the emitted value is the fixed-decimal
    text, here "151" for the typed 150.7. *)
Lemma part000_commit_emits_fixed_text :
  unformat (with_output 0 1000 0 "String") (VStr "150.7") = Num (1507 # 10) /\
  run (Part000.onBlurHandler (with_output 0 1000 0 "String") {| target_value := "150.7" |})
      {| amount := VStr "150.7" |} =
    Some ({| amount := VStr "151" |},
          [Blur {| target_value := "150.7" |}; Input (VStr "151")]).
Proof. split; reflexivity. Qed.

(** C4, as amended.  In part_000, on a blur-commit of a display text
    whose unformatted value is truthy, the emitted value is computed
    from that unformatted, unclamped value: the number itself, or its
    fixed-decimal text when [outputType] is 'string'; the display is
    replaced by the clamped rendering, so the two can disagree: typing
    150 with max=100 emits 150 and shows 100. *)
Theorem part000_commit_unclamped :
  (forall p evt s,
     truthy_number (unformat p (VStr s)) = true ->
     run (Part000.onBlurHandler p evt) {| amount := VStr s |} =
       Some ({| amount := Part000.format p (VStr s) |},
             [Blur evt; Input (output p (unformat p (VStr s)))])) /\
  (forall p n, toLowerCase (outputType p) <> "string" -> output p n = VNum n) /\
  (forall p n, toLowerCase (outputType p) = "string" ->
     output p n = VStr (Accounting.toFixed n (precision p))) /\
  (exists p evt s shown emitted,
     run (Part000.onBlurHandler p evt) {| amount := VStr s |} =
       Some ({| amount := VStr shown |}, [Blur evt; Input (VNum emitted)]) /\
     emitted = unformat p (VStr s) /\
     num_gt emitted (max p) = true /\
     shown = Accounting.formatMoney (max p) (money_options p)).
Proof.
  split; [| split; [| split]].
  - intros p evt s Hs. run_handler. rewrite Hs. reflexivity.
  - intros p n Ho. unfold output.
    destruct (String.eqb_spec (toLowerCase (outputType p)) "string");
      [contradiction | reflexivity].
  - intros p n Ho. unfold output. now rewrite Ho.
  - exists (with_output 0 100 0 "Number"), {| target_value := "150" |}, "150",
      "100", (Num (150 # 1)).
    repeat split.
Qed.

Lemma part000_commit_unclamped_witness :
  run (Part000.onBlurHandler (with_output 0 100 0 "Number") {| target_value := "150" |})
      {| amount := VStr "150" |} =
    Some ({| amount := Part000.format (with_output 0 100 0 "Number") (VStr "150") |},
          [Blur {| target_value := "150" |};
           Input (output (with_output 0 100 0 "Number")
                    (unformat (with_output 0 100 0 "Number") (VStr "150")))]) /\
  output (with_output 0 100 0 "Number") (Num (150 # 1)) = VNum (Num (150 # 1)) /\
  output (with_output 0 100 2 "STRING") (Num (150 # 1)) = VStr "150.00".
Proof.
  split; [| split].
  - apply (proj1 part000_commit_unclamped). reflexivity.
  - apply (proj1 (proj2 part000_commit_unclamped)). discriminate.
  - apply (proj1 (proj2 (proj2 part000_commit_unclamped))
             (with_output 0 100 2 "STRING")). reflexivity.
Defined.

(** ** Synchronisation: external changes *)

(** The owner assigns 5 while the display reads "5": the display is
    recomputed although 5 is what the displayed text stands for. *)
Lemma value_change_compares_display :
  unformat (with_output 0 100 2 "Number") (VStr "5") = Num (5 # 1) /\
  run (VueNumeric.watch_value (with_output 0 100 2 "Number") (VNum (Num (5 # 1))))
      {| amount := VStr "5" |} = Some ({| amount := VStr "5.00" |}, []) /\
  run (Part000.watch_value (with_output 0 100 2 "Number") (VNum (Num (5 # 1))))
      {| amount := VStr "5" |} = Some ({| amount := VStr "5.00" |}, []).
Proof. repeat split. Qed.

(** C5, as amended.  On an external value change the display is
    recomputed exactly when the new value is not strictly equal to the
    displayed value itself; it then becomes [process(newValue)]
    ([format(newValue)] in part_000), whatever was displayed. *)
Theorem value_change_resync (p : props) (newValue : val) (d : data) :
  (strict_eq newValue (amount d) = false ->
   run (VueNumeric.watch_value p newValue) d =
     Some ({| amount := VStr (VueNumeric.process p newValue) |}, []) /\
   run (Part000.watch_value p newValue) d =
     Some ({| amount := Part000.format p newValue |}, [])) /\
  (strict_eq newValue (amount d) = true ->
   run (VueNumeric.watch_value p newValue) d = Some (d, []) /\
   run (Part000.watch_value p newValue) d = Some (d, [])).
Proof.
  split; intros H; run_handler; rewrite H; split; reflexivity.
Qed.

Lemma value_change_resync_witness :
  run (VueNumeric.watch_value (with_output 0 100 2 "Number") (VNum (Num (5 # 1))))
      {| amount := VStr "5" |} =
    Some ({| amount := VStr (VueNumeric.process (with_output 0 100 2 "Number")
                               (VNum (Num (5 # 1)))) |}, []) /\
  run (Part000.watch_value (with_output 0 100 2 "Number") (VStr "5.00"))
      {| amount := VStr "5.00" |} = Some ({| amount := VStr "5.00" |}, []).
Proof.
  split.
  - apply (proj1 (value_change_resync (with_output 0 100 2 "Number")
                    (VNum (Num (5 # 1))) {| amount := VStr "5" |})).
    reflexivity.
  - apply (proj2 (value_change_resync (with_output 0 100 2 "Number")
                    (VStr "5.00") {| amount := VStr "5.00" |})).
    reflexivity.
Defined.

(** In part_000 an external value [''] is passed through by [format]:
    the display becomes empty where the pipeline would give "0". *)
Lemma config_change_passes_empty_through :
  run (Part000.watch_precision (default_props (VStr ""))) {| amount := VStr "12" |} =
    Some ({| amount := VStr "" |}, []) /\
  pipeline (default_props (VStr "")) (VStr "") = "0".
Proof. split; reflexivity. Qed.

(** C6, as amended.  On a change of [separator], [currency] or
    [precision] the display is recomputed from the external value alone:
    vue-numeric.vue applies the pipeline unformat, clamp, format;
    part_000 does the same unless the external value is [''] or [null],
    which it passes through. *)
Theorem config_change_resync (p : props) (d : data) :
  let shown := {| amount := VStr (pipeline p (value p)) |} in
  let shown000 :=
    {| amount := match value p with
                 | VStr "" => VStr ""
                 | VNull => VNull
                 | _ => VStr (pipeline p (value p))
                 end |} in
  VueNumeric.process p (value p) = pipeline p (value p) /\
  run (VueNumeric.watch_separator p) d = Some (shown, []) /\
  run (VueNumeric.watch_currency p) d = Some (shown, []) /\
  run (VueNumeric.watch_precision p) d = Some (shown, []) /\
  run (Part000.watch_separator p) d = Some (shown000, []) /\
  run (Part000.watch_currency p) d = Some (shown000, []) /\
  run (Part000.watch_precision p) d = Some (shown000, []).
Proof.
  assert (H : Part000.format p (value p) =
              match value p with
              | VStr "" => VStr ""
              | VNull => VNull
              | _ => VStr (pipeline p (value p))
              end).
  { unfold Part000.format, pipeline.
    destruct (value p) as [| | n | s]; try reflexivity.
    destruct s; reflexivity. }
  cbv zeta. repeat split; run_handler; now rewrite ?H.
Qed.

(** ** Formatting, unformatting and formatting again *)


(** What the conditions on a configuration give. *)
Lemma plain_decimal_shape (p : props) :
  plain_decimal p = true ->
  exists d0 ds,
    chars (decimalSeparatorSymbol p) = d0 :: ds /\
    is_digit d0 = false /\ Ascii.eqb d0 "-" = false /\
    Shape.kept (d0 :: ds) " " = false.
Proof.
  unfold plain_decimal.
  destruct (chars (decimalSeparatorSymbol p)) as [| d0 ds]; [discriminate |].
  intros H. apply andb_true_iff in H. destruct H as [Hd Hall].
  apply negb_true_iff in Hd.
  exists d0, ds. split; [reflexivity | split; [exact Hd |]].
  rewrite forallb_forall in Hall.
  assert (Hx : forall x, In x (d0 :: ds) ->
                 Ascii.eqb x " " = false /\ Ascii.eqb x "-" = false).
  { intros x Hin. specialize (Hall x Hin). apply negb_true_iff in Hall.
    rewrite !orb_false_iff in Hall. tauto. }
  split; [exact (proj2 (Hx d0 (or_introl eq_refl))) |].
  unfold Shape.kept, Accounting.keep_char.
  destruct (existsb (Ascii.eqb " ") (d0 :: ds)) eqn:E; [| reflexivity].
  apply existsb_exists in E. destruct E as (x & Hin & Hsp).
  rewrite Ascii.eqb_sym, (proj1 (Hx x Hin)) in Hsp. discriminate.
Qed.

Lemma inert_text_inert (p : props) (dec : list ascii) (s : string) :
  chars (decimalSeparatorSymbol p) = dec ->
  inert_text p s = true ->
  Shape.inert dec (chars s).
Proof.
  intros Hdec H. unfold inert_text in H. rewrite Hdec in H.
  apply Forall_forall. intros x Hx.
  rewrite forallb_forall in H. specialize (H x Hx).
  now apply negb_true_iff in H.
Qed.

Lemma literal_texts_each (p : props) :
  literal_texts p = true ->
  verbatim false (chars (currency p)) = true /\
  verbatim true (chars (thousandSeparatorSymbol p)) = true /\
  verbatim false (chars (decimalSeparatorSymbol p)) = true.
Proof.
  unfold literal_texts. rewrite !andb_true_iff. tauto.
Qed.

Lemma scaled_nonzero (q : Q) (prec : nat) :
  ((q < 0)%Q -> Accounting.round_scaled (Qabs q) prec <> 0%Z) ->
  Shape.negative q = true -> Shape.scaled q prec <> 0%N.
Proof.
  intros H Hneg Hz. apply MoneyShape.negative_true in Hneg.
  apply (H Hneg). unfold Shape.scaled in Hz.
  pose proof (RoundFacts.round_scaled_nonneg (Qabs q) prec (Qabs_nonneg q)).
  lia.
Qed.

(** What [unformat] reads in a formatted amount, in a configuration
    that meets the conditions. *)
Lemma unformat_formatMoney (p : props) (q : Q) :
  plain_decimal p = true ->
  inert_text p (thousandSeparatorSymbol p) = true ->
  inert_text p (currency p) = true ->
  literal_texts p = true ->
  unformat p (VStr (Accounting.formatMoney (Num q) (money_options p))) =
    Num (Shape.read_value q (precision p)).
Proof.
  intros Hdec Hth Hsym Hlit.
  destruct (plain_decimal_shape p Hdec) as (d0 & ds & Hc & Hdigit & Hdash & Hsp).
  destruct (literal_texts_each p Hlit) as (Hsv & Hthv & Hdv).
  exact (MoneyShape.unformat_formatted d0 ds Hdigit Hdash Hsp p q Hc
           (inert_text_inert p _ _ Hc Hth) (inert_text_inert p _ _ Hc Hsym)
           Hsv Hthv Hdv).
Qed.



(* ================================================================= *)
(** * Further properties of the code *)

(** ** The clamp keeps a number within the bounds *)

Module ClampFacts.

Lemma Qle_bool_false (a b : Q) : Qle_bool a b = false -> (b < a)%Q.
Proof.
  intros H. apply Qnot_le_lt. intros Hle.
  apply Qle_bool_iff in Hle. congruence.
Qed.

(** Whatever the value, the clamp of a number proper is one. *)
Lemma clamp_number (p : props) (v : val) (q0 : Q) :
  exists c, clamp p v (Num q0) = Num c.
Proof.
  unfold clamp, js_ge, js_le, js_lt.
  destruct (to_number v) as [[| t] | neg]; cbn [ext_ge ext_le ext_lt];
    unfold num_ge, num_le, num_lt; cbn [andb negb].
  - rewrite andb_false_r. now exists q0.
  - destruct (negb (minus p) && negb (Qle_bool 0 t)).
    + destruct (min p) as [| lo]; [now exists 0%Q |].
      destruct (Qle_bool 0 lo); [now exists lo | now exists 0%Q].
    + destruct (min p) as [| lo], (max p) as [| hi].
      * now exists q0.
      * destruct (Qle_bool hi t); [now exists hi | now exists q0].
      * destruct (Qle_bool t lo); [now exists lo | now exists q0].
      * destruct (Qle_bool t lo); [now exists lo |].
        destruct (Qle_bool hi t); [now exists hi | now exists q0].
  - destruct (min p) as [| lo], (max p) as [| hi], (minus p), neg;
      cbn [negb andb]; try destruct (Qle_bool 0 lo); eexists; reflexivity.
Qed.

End ClampFacts.

(** X1. For a numeric value, bounds [min <= max] and, when [minus] is
    off, [max >= 0], the three checks leave a number within
    [[min, max]], not negative when [minus] is off; a value that already
    satisfies this is kept.  With [minus] off and [min < 0] a negative
    value becomes 0, even when [max] is negative. *)
Theorem clamp_within_bounds (p : props) (v lo hi : Q) :
  min p = Num lo -> max p = Num hi ->
  (exists c,
     clamp p (VNum (Num v)) (unformat p (VNum (Num v))) = Num c /\
     ((lo <= hi)%Q -> (minus p = false -> (0 <= hi)%Q) ->
      (lo <= c)%Q /\ (c <= hi)%Q /\ (minus p = false -> (0 <= c)%Q) /\
      ((lo <= v)%Q -> (v <= hi)%Q -> (minus p = false -> (0 <= v)%Q) ->
       (c == v)%Q))) /\
  (minus p = false -> (lo < 0)%Q -> (v < 0)%Q ->
   clamp p (VNum (Num v)) (unformat p (VNum (Num v))) = Num 0%Q).
Proof.
  intros Hmin Hmax. rewrite unformat_number.
  unfold clamp, js_ge, js_le, js_lt. cbn [to_number ext_ge ext_le ext_lt].
  unfold num_ge, num_le, num_lt. rewrite Hmin, Hmax.
  split.
  - destruct (minus p) eqn:Hm, (Qle_bool 0 v) eqn:Hv0, (Qle_bool v lo) eqn:Hlo,
      (Qle_bool hi v) eqn:Hhi, (Qle_bool 0 lo) eqn:Hlo0;
      cbn [negb andb];
      repeat match goal with
             | H : Qle_bool _ _ = true |- _ => apply Qle_bool_iff in H
             | H : Qle_bool _ _ = false |- _ =>
                 apply ClampFacts.Qle_bool_false in H
             end;
      eexists; (split; [reflexivity |]); intros Hb H0;
      try specialize (H0 eq_refl);
      (split;
       [ lra
       | split;
         [ lra
         | split;
           [ intros Hx; try discriminate Hx; lra
           | intros Hv Hv' Hs; try specialize (Hs eq_refl); lra ] ] ]).
  - intros Hm Hlo Hv. rewrite Hm. cbn [negb andb].
    destruct (Qle_bool 0 v) eqn:H1, (Qle_bool 0 lo) eqn:H2;
      repeat match goal with
             | H : Qle_bool _ _ = true |- _ => apply Qle_bool_iff in H
             | H : Qle_bool _ _ = false |- _ =>
                 apply ClampFacts.Qle_bool_false in H
             end; try lra. reflexivity.
Qed.

Lemma clamp_within_bounds_witness :
  (exists c,
     clamp (with_bounds 0 100 false) (VNum (Num (150 # 1)))
       (unformat (with_bounds 0 100 false) (VNum (Num (150 # 1)))) = Num c /\
     (0 <= c)%Q /\ (c <= 100)%Q) /\
  clamp (with_bounds (-10) (-5) false) (VNum (Num (-7 # 1)))
    (unformat (with_bounds (-10) (-5) false) (VNum (Num (-7 # 1)))) = Num 0%Q.
Proof.
  split.
  - destruct (clamp_within_bounds (with_bounds 0 100 false) (150 # 1) 0 100
                eq_refl eq_refl) as [(c & Hc & Hin) _].
    exists c. split; [exact Hc |].
    assert (H1 : (0 <= 100)%Q) by discriminate.
    destruct (Hin H1 (fun _ => H1)) as (Hlo & Hhi & _). now split.
  - apply (clamp_within_bounds (with_bounds (-10) (-5) false) (-7 # 1) (-10) (-5)
             eq_refl eq_refl); reflexivity.
Defined.

(** ** Texts that [ToNumber] does not read *)

Module LiteralFacts.
Import Texts.

Lemma numeric_digit (c : ascii) : is_digit c = true -> Texts.numeric_char c = true.
Proof. intros H. unfold Texts.numeric_char. now rewrite H. Qed.

Lemma numeric_space (c : ascii) : is_space c = true -> Texts.numeric_char c = true.
Proof.
  intros H. unfold Texts.numeric_char. rewrite H. now rewrite orb_true_r.
Qed.

Lemma symbol_not_numeric (c : ascii) :
  Texts.symbol_char c = true -> Texts.numeric_char c = false.
Proof.
  destruct c as [[] [] [] [] [] [] [] []]; intros H;
    solve [reflexivity | discriminate H].
Qed.

Lemma radix_digit_numeric (radix : N) (c : ascii) (v : N) :
  radix_digit radix c = Some v -> Texts.numeric_char c = true.
Proof.
  destruct c as [[] [] [] [] [] [] [] []]; intros H;
    solve [reflexivity | cbn in H; discriminate H].
Qed.

Lemma skip_spaces_split (s : list ascii) :
  exists sp, s = (sp ++ skip_spaces s)%list /\ Forall (fun c => is_space c = true) sp.
Proof.
  induction s as [| c s (sp & Hs & Hsp)]; [now exists [] |].
  simpl. destruct (is_space c) eqn:Hc.
  - exists (c :: sp). split; [simpl; now f_equal | now constructor].
  - now exists [].
Qed.

(** A text followed by white space only. *)
Lemma blank_rest (pre r : list ascii) :
  numeric pre -> skip_spaces r = [] -> numeric (pre ++ r).
Proof.
  intros Hpre Hr. destruct (skip_spaces_split r) as (sp & Hs & Hsp).
  rewrite Hr, app_nil_r in Hs. subst sp.
  apply Forall_app. split; [assumption |].
  eapply Forall_impl; [| exact Hsp]. apply numeric_space.
Qed.

Lemma span_digits_split (s ds r : list ascii) :
  span_digits s = (ds, r) -> s = (ds ++ r)%list /\ numeric ds.
Proof.
  revert ds r. induction s as [| c s IH]; intros ds r H; simpl in H.
  - inversion H. split; [reflexivity | constructor].
  - destruct (is_digit c) eqn:Hc.
    + destruct (span_digits s) as [ds' r'] eqn:E. inversion H; subst.
      destruct (IH ds' r eq_refl) as [-> Hn].
      split; [reflexivity |]. constructor; [now apply numeric_digit | assumption].
    + inversion H. split; [reflexivity | constructor].
Qed.

Lemma radix_value_split (radix : N) (s : list ascii) :
  forall acc n r, radix_value radix acc s = (n, r) ->
  exists pre, s = (pre ++ r)%list /\ numeric pre.
Proof.
  induction s as [| c s IH]; intros acc n r H; cbn [radix_value] in H.
  - inversion H. exists []. split; [reflexivity | constructor].
  - destruct (radix_digit radix c) as [v |] eqn:Hc.
    + destruct (IH _ _ _ H) as (pre & -> & Hpre).
      exists (c :: pre). split; [reflexivity |].
      constructor; [exact (radix_digit_numeric _ _ _ Hc) | assumption].
    + inversion H; subst. exists []. split; [reflexivity | constructor].
Qed.

Lemma parse_radix_split (s r : list ascii) (q : Q) :
  parse_radix s = Some (q, r) ->
  exists pre, s = (pre ++ r)%list /\ numeric pre.
Proof.
  unfold parse_radix. destruct s as [| z [| k [| d s']]]; try discriminate.
  destruct (Ascii.eqb_spec z "0") as [-> | _]; [| discriminate].
  set (radix := if Ascii.eqb k "x" || Ascii.eqb k "X" then 16%N
                else if Ascii.eqb k "o" || Ascii.eqb k "O" then 8%N
                else if Ascii.eqb k "b" || Ascii.eqb k "B" then 2%N
                else 0%N).
  destruct (radix_digit radix d) as [v |] eqn:Hd; [| discriminate].
  assert (Hk : Texts.numeric_char k = true).
  { destruct (Ascii.eqb_spec k "x") as [-> | _]; [reflexivity |].
    destruct (Ascii.eqb_spec k "X") as [-> | _]; [reflexivity |].
    destruct (Ascii.eqb_spec k "o") as [-> | _]; [reflexivity |].
    destruct (Ascii.eqb_spec k "O") as [-> | _]; [reflexivity |].
    destruct (Ascii.eqb_spec k "b") as [-> | _]; [reflexivity |].
    destruct (Ascii.eqb_spec k "B") as [-> | _]; [reflexivity |].
    subst radix. cbn [orb] in Hd.
    destruct d as [[] [] [] [] [] [] [] []]; cbn in Hd; discriminate Hd. }
  destruct (radix_value radix 0 (d :: s')) as [n r'] eqn:E.
  intros H. inversion H; subst.
  destruct (radix_value_split _ _ _ _ _ E) as (pre & Hs & Hpre).
  exists ("0"%char :: k :: pre). split; [cbn [app]; now rewrite <- Hs |].
  constructor; [reflexivity |]. now constructor.
Qed.

Lemma parse_infinity_split (s r : list ascii) (neg : bool) :
  parse_infinity s = Some (neg, r) ->
  exists pre, s = (pre ++ r)%list /\ numeric pre.
Proof.
  unfold parse_infinity.
  assert (Hinf : forall u r', prefix_rest (chars "Infinity") u = Some r' ->
                   exists pre, u = (pre ++ r')%list /\ numeric pre).
  { intros u r' H. apply ParseFacts.prefix_rest_app in H.
    exists (chars "Infinity"). split; [assumption | repeat constructor]. }
  destruct s as [| c s'].
  - destruct (prefix_rest (chars "Infinity") []) as [r' |] eqn:E; [| discriminate].
    intros H. inversion H; subst. now apply Hinf.
  - destruct (Ascii.eqb_spec c "-") as [-> | _].
    + destruct (prefix_rest (chars "Infinity") s') as [r' |] eqn:E; [| discriminate].
      intros H. inversion H; subst.
      destruct (Hinf _ _ E) as (pre & -> & Hpre).
      exists ("-"%char :: pre). split; [reflexivity | now constructor].
    + destruct (Ascii.eqb_spec c "+") as [-> | _].
      * destruct (prefix_rest (chars "Infinity") s') as [r' |] eqn:E; [| discriminate].
        intros H. inversion H; subst.
        destruct (Hinf _ _ E) as (pre & -> & Hpre).
        exists ("+"%char :: pre). split; [reflexivity | now constructor].
      * destruct (prefix_rest (chars "Infinity") (c :: s')) as [r' |] eqn:E;
          [| discriminate].
        intros H. inversion H; subst. now apply Hinf.
Qed.

Lemma parse_exponent_split (s r : list ascii) (e : Z) :
  parse_exponent s = Some (e, r) ->
  exists pre, s = (pre ++ r)%list /\ numeric pre.
Proof.
  unfold parse_exponent. destruct s as [| c s]; [discriminate |].
  destruct (Ascii.eqb c "e" || Ascii.eqb c "E") eqn:Hc; [| discriminate].
  assert (Hcn : Texts.numeric_char c = true).
  { apply orb_true_iff in Hc.
    destruct Hc as [Hc | Hc]; apply Ascii.eqb_eq in Hc; subst c; reflexivity. }
  assert (Hsign : exists sg r1,
            match s with
            | sg :: r' =>
                if Ascii.eqb sg "-" then (true, r')
                else if Ascii.eqb sg "+" then (false, r') else (false, s)
            | [] => (false, s)
            end = (sg, r1) /\
            exists pre, s = (pre ++ r1)%list /\ numeric pre).
  { destruct s as [| sg r'].
    - exists false, []. split; [reflexivity |]. exists []. now split; [| constructor].
    - destruct (Ascii.eqb_spec sg "-") as [-> | _].
      + exists true, r'. split; [reflexivity |].
        exists ["-"%char]. split; [reflexivity | repeat constructor].
      + destruct (Ascii.eqb_spec sg "+") as [-> | _].
        * exists false, r'. split; [reflexivity |].
          exists ["+"%char]. split; [reflexivity | repeat constructor].
        * exists false, (sg :: r'). split; [reflexivity |].
          exists []. split; [reflexivity | constructor]. }
  destruct Hsign as (sg & r1 & -> & pre & Hs & Hpre).
  destruct (span_digits r1) as [ds r2] eqn:E.
  destruct ds as [| d ds]; [discriminate |].
  intros H. inversion H; subst.
  destruct (span_digits_split _ _ _ E) as [-> Hds].
  exists (c :: pre ++ d :: ds)%list. split.
  - simpl. now rewrite <- app_assoc.
  - constructor; [assumption |]. apply Forall_app. now split.
Qed.

Lemma parse_decimal_split (s r : list ascii) (q : Q) :
  parse_decimal s = Some (q, r) ->
  exists pre, s = (pre ++ r)%list /\ numeric pre.
Proof.
  unfold parse_decimal. destruct (span_digits s) as [ip r1] eqn:E1.
  destruct (span_digits_split _ _ _ E1) as [-> Hip].
  set (mantissa :=
    match r1 with
    | c :: r2 =>
        if Ascii.eqb c "." then
          let (fp, r3) := span_digits r2 in
          match ip, fp with
          | [], [] => None
          | _, _ => Some (decimal_of ip fp, r3)
          end
        else match ip with [] => None | _ :: _ => Some (decimal_of ip [], r1) end
    | [] => match ip with [] => None | _ :: _ => Some (decimal_of ip [], r1) end
    end).
  assert (Hm : forall m rm, mantissa = Some (m, rm) ->
            exists pre, (ip ++ r1 = pre ++ rm)%list /\ numeric pre).
  { intros m rm Hm. subst mantissa. destruct r1 as [| c r2].
    - destruct ip; [discriminate |]. inversion Hm; subst.
      exists (a :: ip). now split.
    - destruct (Ascii.eqb_spec c ".") as [-> | _].
      + destruct (span_digits r2) as [fp r3] eqn:E2.
        destruct (span_digits_split _ _ _ E2) as [-> Hfp].
        assert (rm = r3) by (destruct ip, fp; inversion Hm; reflexivity).
        subst rm. exists (ip ++ "."%char :: fp)%list. split.
        * now rewrite <- app_assoc.
        * apply Forall_app. split; [assumption |].
          constructor; [reflexivity | assumption].
      + destruct ip; [discriminate |]. inversion Hm; subst.
        exists (a :: ip). now split. }
  destruct mantissa as [[m rm] |]; [| discriminate].
  destruct (Hm m rm eq_refl) as (pre & Hs & Hpre). rewrite Hs.
  destruct (parse_exponent rm) as [[e r'] |] eqn:Ee; intros H; inversion H; subst.
  - destruct (parse_exponent_split _ _ _ Ee) as (pe & -> & Hpe).
    exists (pre ++ pe)%list. split; [now rewrite <- app_assoc |].
    apply Forall_app. now split.
  - now exists pre.
Qed.

Lemma parse_signed_split (s r : list ascii) (q : Q) :
  parse_signed s = Some (q, r) ->
  exists pre, s = (pre ++ r)%list /\ numeric pre.
Proof.
  unfold parse_signed. destruct s as [| c s]; [discriminate |].
  destruct (Ascii.eqb_spec c "-") as [-> | _].
  - destruct (parse_decimal s) as [[q' r'] |] eqn:E; [| discriminate].
    intros H. inversion H; subst.
    destruct (parse_decimal_split _ _ _ E) as (pre & -> & Hpre).
    exists ("-"%char :: pre). split; [reflexivity | now constructor].
  - destruct (Ascii.eqb_spec c "+") as [-> | _].
    + intros E. destruct (parse_decimal_split _ _ _ E) as (pre & -> & Hpre).
      exists ("+"%char :: pre). split; [reflexivity | now constructor].
    + apply parse_decimal_split.
Qed.

(** Only texts made of digits, letters, points, signs and white space
    are read as numbers. *)
Lemma string_to_number_numeric (s : string) :
  string_to_number s <> Finite NaN -> numeric (chars s).
Proof.
  unfold string_to_number.
  destruct (skip_spaces_split (chars s)) as (sp & Hs & Hsp).
  assert (Hsp' : numeric sp)
    by (eapply Forall_impl; [| exact Hsp]; apply numeric_space).
  rewrite Hs at 2. destruct (skip_spaces (chars s)) as [| c t] eqn:Et.
  - intros _. now rewrite app_nil_r.
  - assert (Hwhole : forall pre r v,
              c :: t = (pre ++ r)%list -> numeric pre ->
              match skip_spaces r with [] => v | _ :: _ => Finite NaN end
                <> Finite NaN ->
              numeric (sp ++ c :: t)).
    { intros pre r v Hct Hpre Hv. rewrite Hct.
      apply Forall_app. split; [assumption |].
      apply blank_rest; [assumption |].
      destruct (skip_spaces r); [reflexivity | contradiction]. }
    destruct (parse_radix (c :: t)) as [[q r] |] eqn:Er.
    { destruct (parse_radix_split _ _ _ Er) as (pre & Hct & Hpre).
      exact (Hwhole pre r _ Hct Hpre). }
    destruct (parse_infinity (c :: t)) as [[neg r] |] eqn:Ei.
    { destruct (parse_infinity_split _ _ _ Ei) as (pre & Hct & Hpre).
      exact (Hwhole pre r _ Hct Hpre). }
    destruct (parse_signed (c :: t)) as [[q r] |] eqn:E; [| contradiction].
    destruct (parse_signed_split _ _ _ E) as (pre & Hct & Hpre).
    exact (Hwhole pre r _ Hct Hpre).
Qed.

Lemma to_number_symbol (s : string) :
  existsb Texts.symbol_char (chars s) = true -> to_number (VStr s) = Finite NaN.
Proof.
  intros H. cbn [to_number].
  assert (Hdec : {string_to_number s = Finite NaN} + {string_to_number s <> Finite NaN}).
  { destruct (string_to_number s) as [[| q] | neg];
      [now left | right; discriminate | right; discriminate]. }
  destruct Hdec as [E | E]; [exact E |].
  apply string_to_number_numeric in E.
  apply existsb_exists in H. destruct H as (x & Hin & Hx).
  unfold numeric in E. rewrite Forall_forall in E.
  specialize (E x Hin). rewrite (symbol_not_numeric x Hx) in E. discriminate.
Qed.

End LiteralFacts.

(** X2. The checks compare the text itself, through [ToNumber]: a
    text holding a punctuation character other than the point and the
    signs (a currency symbol, a comma) is not a numeric literal, no
    check fires, and [process] and part_000's [format] render its
    unformatted value whatever the bounds and the sign policy. *)
Theorem text_with_symbol_not_clamped (p : props) (s : string) (r : number) :
  existsb Texts.symbol_char (chars s) = true ->
  clamp p (VStr s) r = r /\
  VueNumeric.process p (VStr s) = VueNumeric.format p (unformat p (VStr s)) /\
  Part000.format p (VStr s) =
    VStr (Accounting.formatMoney (unformat p (VStr s)) (money_options p)).
Proof.
  intros H.
  assert (Hc : forall r', clamp p (VStr s) r' = r').
  { intros r'. unfold clamp, js_ge, js_le, js_lt.
    rewrite (LiteralFacts.to_number_symbol s H). cbn. now rewrite andb_false_r. }
  split; [apply Hc | split].
  - unfold VueNumeric.process. now rewrite Hc.
  - unfold Part000.format. destruct s as [| a s']; [discriminate H |].
    now rewrite Hc.
Qed.

Lemma text_with_symbol_not_clamped_witness :
  VueNumeric.process (with_money "$" 0 0 100) (VStr "$ 150") = "$ 150" /\
  Part000.format (with_money "$" 0 0 100) (VStr "1,500") = VStr "$ 1,500".
Proof.
  destruct (text_with_symbol_not_clamped (with_money "$" 0 0 100) "$ 150" NaN eq_refl)
    as (_ & H1 & _).
  destruct (text_with_symbol_not_clamped (with_money "$" 0 0 100) "1,500" NaN eq_refl)
    as (_ & _ & H2).
  split; [rewrite H1 | rewrite H2]; reflexivity.
Defined.

(** ** The layout of a formatted amount *)

Module LayoutFacts.

Lemma find_value_after (a b : list ascii) :
  forallb (fun x => negb (Ascii.eqb x "%")) a = true ->
  find_first (chars "%v") (a ++ chars "%v" ++ b)%list = Some (a, b).
Proof.
  intros Ha. apply (SubstitutionFacts.find_first_skip "%"%char ["v"%char] a b).
  apply Forall_forall. intros x Hx. rewrite forallb_forall in Ha.
  specialize (Ha x Hx). apply negb_true_iff in Ha. now rewrite Ascii.eqb_sym.
Qed.

End LayoutFacts.

(** X3. The text both files get from [formatMoney] for an amount
    below [1e21] in magnitude and a currency symbol without a percent
    sign, when neither the symbol nor the separators hold a replacement
    pattern and the precision is one the native [toFixed] accepts (at
    most 100): the number part alone when
    the symbol is empty, else the number part, a space and the symbol
    when [currencySymbolPosition] is exactly "suffix", else the symbol,
    a space and the number part; the minus sign of a negative amount
    stands right before the number part. *)
Theorem format_layout (p : props) (q : Q) :
  (Qabs q < Accounting.exponent_threshold)%Q ->
  (precision p <= 100)%nat ->
  forallb (fun x => negb (Ascii.eqb x "%")) (chars (currency p)) = true ->
  literal_texts p = true ->
  Accounting.formatMoney (Num q) (money_options p) = text (Texts.layout p q) /\
  VueNumeric.format p (Num q) = text (Texts.layout p q).
Proof.
  intros _ _ Hsym Hlit.
  destruct (literal_texts_each p Hlit) as (Hsv & Hthv & Hdv).
  assert (H : Accounting.formatMoney (Num q) (money_options p) =
              text (Texts.layout p q)).
  { rewrite MoneyShape.formatMoney_money_text. unfold Shape.money_text.
    rewrite (ReadBack.formatted_number_text (money_options p) _ Hthv).
    cbn [Accounting.precision Accounting.symbol Accounting.format money_options].
    pose proof (MoneyShape.number_text_verbatim (money_options p)
                  (Shape.scaled q (precision p)) Hthv Hdv) as Hnt.
    unfold Texts.layout, Texts.sign_text, symbolPosition.
    set (nt := Shape.number_text (money_options p) (Shape.scaled q (precision p))) in *.
    rewrite (SubstitutionFacts.replace_first_verbatim _ nt _ Hnt).
    rewrite (SubstitutionFacts.replace_first_verbatim (chars "%s") _ _ Hsv).
    f_equal.
    destruct (truthy_string (currency p)); cbn [negb].
    - destruct (String.eqb (currencySymbolPosition p) "suffix").
      + destruct (Shape.negative q); cbn; now rewrite app_nil_r.
      + destruct (Shape.negative q).
        * replace (match find_first (chars "%s")
                           (Accounting.neg_format (chars "%s %v")) with
                   | Some (b, a) => b ++ chars (currency p) ++ a
                   | None => Accounting.neg_format (chars "%s %v")
                   end)%list
            with ((chars (currency p) ++ chars " -") ++ chars "%v" ++ [])%list
            by (cbn; now rewrite <- app_assoc).
          rewrite LayoutFacts.find_value_after.
          -- rewrite <- app_assoc, app_nil_r. reflexivity.
          -- rewrite forallb_app, Hsym. reflexivity.
        * replace (match find_first (chars "%s") (chars "%s %v") with
                   | Some (b, a) => b ++ chars (currency p) ++ a
                   | None => chars "%s %v"
                   end)%list
            with ((chars (currency p) ++ chars " ") ++ chars "%v" ++ [])%list
            by (cbn; now rewrite <- app_assoc).
          rewrite LayoutFacts.find_value_after.
          -- rewrite <- app_assoc, app_nil_r. reflexivity.
          -- rewrite forallb_app, Hsym. reflexivity.
    - destruct (Shape.negative q); cbn; now rewrite app_nil_r. }
  split; [exact H | exact H].
Qed.

Lemma format_layout_witness :
  VueNumeric.format (with_money "kr" 1 (-100) 100) (Num (-125 # 10)) = "kr -12.5" /\
  VueNumeric.format (with_money "$" 0 0 10000) (Num (1234 # 1)) = "$ 1,234".
Proof.
  split.
  - destruct (format_layout (with_money "kr" 1 (-100) 100) (-125 # 10)) as [_ H];
      [reflexivity | cbn [precision with_money]; lia | reflexivity | reflexivity |].
    rewrite H. reflexivity.
  - destruct (format_layout (with_money "$" 0 0 10000) (1234 # 1)) as [_ H];
      [reflexivity | cbn [precision with_money]; lia | reflexivity | reflexivity |].
    rewrite H. reflexivity.
Defined.

(** ** What is read back from a formatted amount *)

Module RoundTripFacts.

(** The scaled, rounded amount is within half a unit of the scaled,
    nudged amount. *)
Lemma round_scaled_abs_spec (n : Z) (d : positive) (p : nat) :
  0 <= Accounting.round_scaled (Qabs (n # d)) p /\
  Z.abs ((Accounting.round_scaled (Qabs (n # d)) p * Zpos d
          - Z.abs n * Zpos (pow10 p)) * 200000000
         - 2 * (Zpos (pow10 p) * Zpos d)) <= Zpos d * 100000000.
Proof.
  split; [apply RoundFacts.round_scaled_nonneg, Qabs_nonneg |].
  unfold Accounting.round_scaled, Accounting.nudge, Qfloor, Qplus, Qmult, Qabs,
    inject_Z.
  cbn [Qnum Qden].
  rewrite !Pos2Z.inj_mul.
  set (P := Zpos (pow10 p)). set (A := Z.abs n). set (D := Zpos d).
  assert (HP : 0 < P) by (subst P; lia).
  assert (HD : 0 < D) by (subst D; lia).
  set (num := (A * 100000000 + 1 * D) * P * 2 + 1 * (D * 100000000 * 1)).
  set (den := D * 100000000 * 1 * 2).
  pose proof (Z.div_mod num den ltac:(subst den; lia)) as Hdm.
  pose proof (Z.mod_pos_bound num den ltac:(subst den; lia)) as Hm.
  set (R := num / den) in *. set (rem := num mod den) in *.
  clearbody R rem. subst num den. clearbody P A D.
  set (RD := R * D) in *. set (AP := A * P) in *. set (PD := P * D) in *.
  assert (E1 : D * 100000000 * 1 * 2 * R = 200000000 * RD) by (subst RD; ring).
  assert (E2 : (A * 100000000 + 1 * D) * P * 2 + 1 * (D * 100000000 * 1)
               = 200000000 * AP + 2 * PD + 100000000 * D)
    by (subst AP PD; ring).
  rewrite E1, E2 in Hdm. clearbody RD AP PD. lia.
Qed.

(** Reading back moves an amount by at most half a unit in the last
    place and the nudge. *)
Lemma read_value_close (q : Q) (p : nat) :
  (Qabs (Shape.read_value q p - q) <= Texts.half_unit p + Accounting.nudge)%Q.
Proof.
  destruct q as [n d].
  destruct (round_scaled_abs_spec n d p) as [HR Hclose].
  unfold Shape.read_value, Shape.read_back, Shape.scaled, Texts.half_unit,
    Accounting.nudge.
  rewrite Z2N.id by exact HR.
  set (R := Accounting.round_scaled (Qabs (n # d)) p) in *.
  set (P := Zpos (pow10 p)) in *.
  assert (HP : 0 < P) by (subst P; lia).
  assert (Hbound : Z.abs (R * Zpos d - Z.abs n * P) * 200000000
                   <= Zpos d * (100000000 + 2 * P)) by lia.
  assert (Hscaled : Z.abs (R * Zpos d - Z.abs n * P) * 200000000 * P
                    <= Zpos d * (100000000 + 2 * P) * P)
    by (apply Z.mul_le_mono_nonneg_r; lia).
  unfold Shape.negative, Qle_bool. cbn [Qnum Qden].
  destruct (Z.leb_spec (0 * Zpos d) (n * 1)) as [Hn | Hn]; cbn [negb];
    unfold Qle, Qabs, Qminus, Qplus, Qopp; cbn [Qnum Qden];
    rewrite !Pos2Z.inj_mul; fold P;
    [ replace (R * Zpos d + - n * P) with (R * Zpos d - Z.abs n * P) by lia
    | replace (- R * Zpos d + - n * P) with (- (R * Zpos d - Z.abs n * P)) by lia;
      rewrite Z.abs_opp ];
    clearbody R P; nia.
Qed.

(** Up to seven decimals, an amount with no more decimals than the
    precision is read back as it is. *)
Lemma read_value_exact (q : Q) (a : Z) (p : nat) :
  (p <= 7)%nat -> (q == a # pow10 p)%Q -> (Shape.read_value q p == q)%Q.
Proof.
  intros Hp Hq. unfold Shape.read_value.
  rewrite (MoneyShape.negative_compat _ _ Hq), (MoneyShape.scaled_compat _ _ p Hq).
  rewrite Hq. unfold Shape.scaled, Shape.read_back.
  change (Qabs (a # pow10 p)) with (Z.abs a # pow10 p).
  rewrite (RoundFacts.round_scaled_exact _ _ Hp), Z2N.id by apply Z.abs_nonneg.
  unfold Shape.negative, Qle_bool. cbn [Qnum Qden].
  destruct (Z.leb_spec (0 * Zpos (pow10 p)) (a * 1)) as [Ha | Ha]; cbn [negb];
    unfold Qeq, Qopp; cbn [Qnum Qden]; lia.
Qed.

Lemma pow10_high (k : nat) :
  Zpos (pow10 (8 + k)) = 100000000 * Zpos (pow10 k).
Proof.
  change (8 + k)%nat with (S (S (S (S (S (S (S (S k)))))))).
  rewrite !RoundFacts.pow10_S, !Pos2Z.inj_mul. lia.
Qed.

(** From eight decimals on, such an amount comes back further from
    zero by the nudge. *)
Lemma read_value_drift (q : Q) (a : Z) (k : nat) :
  (q == a # pow10 (8 + k))%Q ->
  (Qabs (Shape.read_value q (8 + k)) == Qabs q + Accounting.nudge)%Q.
Proof.
  intros Hq. unfold Shape.read_value.
  rewrite MoneyShape.Qabs_read_back, (MoneyShape.scaled_compat _ _ _ Hq), Hq.
  unfold Shape.scaled.
  change (Qabs (a # pow10 (8 + k))) with (Z.abs a # pow10 (8 + k)).
  rewrite RoundFacts.round_scaled_multiple, RoundFacts.round_scaled_zero_high.
  rewrite Z2N.id by lia.
  unfold Qeq, Qplus, Accounting.nudge. cbn [Qnum Qden].
  rewrite !Pos2Z.inj_mul, pow10_high.
  set (K := Zpos (pow10 k)). clearbody K. ring.
Qed.

End RoundTripFacts.



(** ** The commit of vue-numeric.vue *)

Module CommitFacts.

Lemma unformat_text_proper (p : props) (s : string) :
  emptyValue p <> VNum NaN -> exists q, unformat p (VStr s) = Num q.
Proof.
  intros He. destruct s as [| a s'].
  - rewrite unformat_empty.
    destruct (Accounting.unformat (emptyValue p) (decimalSeparatorSymbol p))
      as [| q] eqn:E; [| now exists q].
    apply accounting_unformat_NaN in E. contradiction.
  - apply unformat_text_number. discriminate.
Qed.

Lemma truthy_read_value (c : Q) (p : nat) :
  truthy_number (Num (Shape.read_value c p)) = negb (Shape.scaled c p =? 0)%N.
Proof.
  unfold truthy_number, Shape.read_value, Shape.read_back. f_equal.
  destruct (N.eqb_spec (Shape.scaled c p) 0) as [-> | Hr].
  - now destruct (Shape.negative c).
  - destruct (Shape.negative c);
      match goal with
      | |- Qeq_bool ?x ?y = false =>
          destruct (Qeq_bool x y) eqn:E; [| reflexivity];
          apply Qeq_bool_eq in E; unfold Qeq, Qopp in E; cbn [Qnum Qden] in E; lia
      end.
Qed.

End CommitFacts.



(** ** What a blur leaves behind *)

Module BlurFacts.

Lemma committable_output (p : props) (q : Q) : Texts.committable (output p (Num q)).
Proof.
  unfold output. now destruct (String.eqb (toLowerCase (outputType p)) "string").
Qed.

Lemma committable_truthy (p : props) (n : number) :
  truthy_number n = true -> Texts.committable (output p n).
Proof.
  intros H. destruct (truthy_is_number n H) as [q ->]. apply committable_output.
Qed.

Lemma unformat_null (p : props) : unformat p VNull = Num 0%Q.
Proof. apply ParseFacts.parse_text_digit_free. repeat constructor. Qed.

Lemma unformat_undefined (p : props) : unformat p VUndefined = Num 0%Q.
Proof. apply ParseFacts.parse_text_digit_free. repeat constructor. Qed.

Lemma part000_format_text (p : props) (s : string) :
  exists t, Part000.format p (VStr s) = VStr t.
Proof. unfold Part000.format. destruct s; eexists; reflexivity. Qed.

End BlurFacts.




(** ** A formatted amount is never blank *)

Module BlankFacts.

Lemma text_nonempty (l : list ascii) : l <> [] -> text l <> ""%string.
Proof.
  intros Hl H. apply Hl. apply (f_equal chars) in H. unfold chars, text in H.
  now rewrite list_ascii_of_string_of_list_ascii in H.
Qed.

(** A formatted number starts with a character other than the dollar
    sign: a digit, or the first letter of [NaN]. *)
Lemma formatNumber_head (n : number) (o : Accounting.options) :
  exists c rest,
    Accounting.formatNumber (Accounting.num_abs n) o = c :: rest /\
    Ascii.eqb c "$" = false.
Proof.
  destruct n as [| q].
  - exists "N"%char. eexists. split; reflexivity.
  - rewrite ReadBack.formatNumber_abs. unfold Shape.formatted_number.
    set (r := Z.to_N (Accounting.round_scaled (Qabs q) (Accounting.precision o))).
    pose proof (DigitFacts.digits_of_N_nonempty
                  (r / Accounting.Npow10 (Accounting.precision o))) as Hne.
    pose proof (DigitFacts.digits_of_N_all_digits
                  (r / Accounting.Npow10 (Accounting.precision o))) as Hall.
    destruct (Accounting.digits_of_N (r / Accounting.Npow10 (Accounting.precision o)))
      as [| x1 l]; [contradiction |].
    assert (Hx : Ascii.eqb x1 "$" = false).
    { inversion Hall; subst. now apply ReadBack.digit_not_char. }
    exists x1.
    destruct (if (3 <? length (x1 :: l))%nat
              then (length (x1 :: l) mod 3)%nat else 0%nat) as [| k].
    + cbn [app skipn].
      destruct l as [| x2 [| x3 [| x4 tl]]];
        try (eexists; split; [reflexivity | exact Hx]).
      cbn [Accounting.group3]. rewrite SubstitutionFacts.group_template_head.
      eexists. split; [reflexivity | exact Hx].
    + cbn [firstn app]. eexists. split; [reflexivity | exact Hx].
Qed.

Lemma replace_first_nonempty (pat rest s : list ascii) (c : ascii) :
  Ascii.eqb c "$" = false -> s <> [] ->
  replace_first pat (c :: rest) s <> [].
Proof.
  intros Hc Hs. unfold replace_first.
  destruct (find_first pat s) as [[b a] |]; [| exact Hs].
  cbn [substitution]. rewrite Hc. intros H.
  apply app_eq_nil in H. destruct H as [_ H]. discriminate H.
Qed.

Lemma symbol_placed_nonempty (p : props) (neg : bool) (sym : list ascii) :
  replace_first (chars "%s") sym
    (if neg then Accounting.neg_format (chars (symbolPosition p))
     else chars (symbolPosition p)) <> [].
Proof.
  unfold replace_first, symbolPosition.
  destruct (negb (truthy_string (currency p)));
    [| destruct (String.eqb (currencySymbolPosition p) "suffix")];
    destruct neg; cbn; try discriminate;
    intros H; apply app_eq_nil in H; destruct H as [_ H]; discriminate H.
Qed.

Lemma formatMoney_not_blank (p : props) (n : number) :
  Accounting.formatMoney n (money_options p) <> ""%string.
Proof.
  unfold Accounting.formatMoney. apply text_nonempty.
  destruct (formatNumber_head n (money_options p)) as (c & rest & -> & Hc).
  apply (replace_first_nonempty _ _ _ _ Hc).
  cbn [Accounting.symbol Accounting.format money_options].
  destruct (num_gt n (Num 0%Q)).
  - exact (symbol_placed_nonempty p false _).
  - destruct (num_lt n (Num 0%Q)).
    + exact (symbol_placed_nonempty p true _).
    + exact (symbol_placed_nonempty p false _).
Qed.

End BlankFacts.

(** X8. [process] never yields an empty text: after mounting,
    vue-numeric.vue always shows something, the formatted [emptyValue]
    or 0 for an empty external value; part_000's [format] passes [null]
    and [''] through and yields a text that is not empty for any other
    value. *)
Theorem display_blank (p : props) (v : val) :
  VueNumeric.process p v <> "" /\
  (Part000.format p v = VStr "" <-> v = VStr "") /\
  (Part000.format p v = VNull <-> v = VNull) /\
  (v <> VNull -> exists t, Part000.format p v = VStr t) /\
  (forall d, exists t,
     run (VueNumeric.mounted p) d = Some ({| amount := VStr t |}, []) /\ t <> "").
Proof.
  assert (Hproc : forall v0, VueNumeric.process p v0 <> "").
  { intros v0. unfold VueNumeric.process, VueNumeric.format.
    apply BlankFacts.formatMoney_not_blank. }
  assert (Hfmt : v = VStr "" \/ v = VNull \/
                 exists t, Part000.format p v = VStr t /\ t <> "").
  { unfold Part000.format.
    destruct v as [| | n | [| a s']]; auto; right; right;
      eexists; (split; [reflexivity | apply BlankFacts.formatMoney_not_blank]). }
  split; [apply Hproc | split; [| split; [| split]]].
  - split; [| intros ->; reflexivity].
    destruct Hfmt as [-> | [-> | (t & -> & Ht)]];
      [reflexivity | discriminate | intros H; inversion H; contradiction].
  - split; [| intros ->; reflexivity].
    destruct Hfmt as [-> | [-> | (t & -> & Ht)]];
      [discriminate | reflexivity | discriminate].
  - intros Hv. destruct Hfmt as [-> | [-> | (t & -> & Ht)]];
      [now exists "" | contradiction | now exists t].
  - intros d. exists (VueNumeric.process p (value p)).
    split; [reflexivity | apply Hproc].
Qed.

Lemma display_blank_witness :
  exists t, Part000.format (default_props (VStr "abc")) (VStr "abc") = VStr t.
Proof.
  destruct (display_blank (default_props (VStr "abc")) (VStr "abc"))
    as (_ & _ & _ & H & _).
  apply H. discriminate.
Defined.
